(** * CloudflareSpeedTest: the probing and measurement engine

    A shallow embedding of the Go packages [utils] (csv.go) and [task]
    (tcping.go, ip.go, download.go), and the properties of the ranking and
    filtering pipeline, the range expander, the parameter checks and the
    download phase.

    Conventions.
    - Go's [int] and [time.Duration] are 64-bit signed integers: [Z], with
      the wrap-around written out where the code computes ([wrap64]).
    - Go's [float32] and [float64] are IEEE 754 binary32 and binary64: the
      Standard Library's [spec_float] with the precision and the exponent
      bound of each format, rounding to nearest even.
    - A slice is a [list]; the [nil] slice and the empty slice are both [nil].
    - A package-level variable is a field of a configuration record which the
      functions that assign it return updated. *)

From Stdlib Require Import ZArith List Bool Lia String Ascii Permutation Sorted.
From Stdlib Require Import Floats.SpecFloat.
Import ListNotations.

Local Open Scope Z_scope.

(** ** Go's primitive types *)

Module Go.

(** The range of [int], [int64] and [time.Duration]. *)
Definition in_int64 (z : Z) : Prop := - 2 ^ 63 <= z < 2 ^ 63.

(** Two's complement wrap-around of 64-bit signed arithmetic. *)
Definition wrap64 (z : Z) : Z := (z + 2 ^ 63) mod 2 ^ 64 - 2 ^ 63.

(** [float32]: 24 bits of precision, infinities at exponent 128. *)
Definition float32 : Type := spec_float.
Definition prec32 : Z := 24.
Definition emax32 : Z := 128.

(** [float64]: 53 bits of precision, infinities at exponent 1024. *)
Definition float64 : Type := spec_float.
Definition prec64 : Z := 53.
Definition emax64 : Z := 1024.

(** The conversion [float32(n)] of an integer, rounded to nearest even. *)
Definition float32_of_int (n : Z) : float32 :=
  binary_normalize prec32 emax32 n 0 false.

(** The conversion of an integer constant to [float64]. *)
Definition float64_of_int (n : Z) : float64 :=
  binary_normalize prec64 emax64 n 0 false.

Definition f32_div (x y : float32) : float32 := SFdiv prec32 emax32 x y.
Definition f64_mul (x y : float64) : float64 := SFmul prec64 emax64 x y.

(** The comparison operators of Go on floats: every comparison with a NaN
    is false, except [!=], which is true. *)
Definition feq (x y : spec_float) : bool := SFeqb x y.
Definition fne (x y : spec_float) : bool := negb (SFeqb x y).
Definition flt (x y : spec_float) : bool := SFltb x y.
Definition fle (x y : spec_float) : bool := SFleb x y.
Definition fgt (x y : spec_float) : bool := SFltb y x.
Definition fge (x y : spec_float) : bool := SFleb y x.

Definition fzero : spec_float := S754_zero false.

Definition is_nan (x : spec_float) : bool :=
  match x with S754_nan => true | _ => false end.

(** [time.Millisecond] and [time.Second], in nanoseconds. *)
Definition Millisecond : Z := 1000000.
Definition Second : Z := 1000 * Millisecond.

End Go.

Import Go.

(** ** Package utils (csv.go) *)

Module utils.

(** An address: [net.IP], a slice of 4 or 16 bytes. *)
Definition IPAddr : Type := list Z.

Definition maxDelay : Z := 9999 * Millisecond.
Definition minDelay : Z := 0 * Millisecond.
Definition maxLossRate : float32 := float32_of_int 1.

(** The package variables of utils that the pipeline reads. *)
Record Vars := mkVars {
  InputMaxDelay : Z;
  InputMinDelay : Z;
  InputMaxLossRate : float32;
  Debug : bool
}.

Definition defaultVars : Vars := mkVars maxDelay minDelay maxLossRate false.

Record PingData := mkPingData {
  IP : IPAddr;
  Sended : Z;
  Received : Z;
  Delay : Z;
  Colo : string
}.

(** [CloudflareIPData] embeds a [*PingData]. No two records of a set share
    their [PingData] (each is allocated by its own probe, see
    [tcpingHandler]), so the pointer is modelled by the value it points to. *)
Record CloudflareIPData := mkIPData {
  pingData : PingData;
  lossRate : float32;
  DownloadSpeed : float64
}.

(** A record as a composite literal [{PingData: data}] builds it. *)
Definition newIPData (data : PingData) : CloudflareIPData :=
  mkIPData data fzero fzero.

Definition set_lossRate (x : float32) (cf : CloudflareIPData) : CloudflareIPData :=
  mkIPData (pingData cf) x (DownloadSpeed cf).

Definition set_DownloadSpeed (x : float64) (cf : CloudflareIPData) : CloudflareIPData :=
  mkIPData (pingData cf) (lossRate cf) x.

Definition set_Colo (c : string) (cf : CloudflareIPData) : CloudflareIPData :=
  let d := pingData cf in
  mkIPData (mkPingData (IP d) (Sended d) (Received d) (Delay d) c)
           (lossRate cf) (DownloadSpeed cf).

(** Assignments to [cf.Sended] and [cf.Received] through the pointer. *)
Definition set_counts (sended received : Z) (cf : CloudflareIPData) : CloudflareIPData :=
  let d := pingData cf in
  mkIPData (mkPingData (IP d) sended received (Delay d) (Colo d))
           (lossRate cf) (DownloadSpeed cf).

(** The quotient [float32(Sended - Received) / float32(Sended)]. *)
Definition computeLossRate (d : PingData) : float32 :=
  let pingLost := wrap64 (Sended d - Received d) in
  f32_div (float32_of_int pingLost) (float32_of_int (Sended d)).

(** [getLossRate] has a pointer receiver: it returns the rate and the
    record as the call leaves it. *)
Definition getLossRate (cf : CloudflareIPData) : float32 * CloudflareIPData :=
  if feq (lossRate cf) fzero then
    let cf' := set_lossRate (computeLossRate (pingData cf)) cf in
    (lossRate cf', cf')
  else (lossRate cf, cf).

Definition PingDelaySet : Type := list CloudflareIPData.
Definition DownloadSpeedSet : Type := list CloudflareIPData.

(** The loop of [FilterDelay]: [data] is the named result the loop appends
    to; [break] returns it, [continue] goes on without appending. *)
Fixpoint FilterDelay_loop (v : Vars) (s data : PingDelaySet) : PingDelaySet :=
  match s with
  | [] => data
  | x :: rest =>
      if InputMaxDelay v <? Delay (pingData x) then data
      else if Delay (pingData x) <? InputMinDelay v then FilterDelay_loop v rest data
      else FilterDelay_loop v rest (data ++ [x])
  end.

Definition FilterDelay (v : Vars) (s : PingDelaySet) : PingDelaySet :=
  if (maxDelay <? InputMaxDelay v) || (InputMinDelay v <? minDelay) then s
  else if (InputMaxDelay v =? maxDelay) && (InputMinDelay v =? minDelay) then s
  else FilterDelay_loop v s [].

(** The loop of [FilterLossRate]. The range variable is a copy of the
    element: [getLossRate] stores the rate in the copy, and it is the copy
    that is appended. *)
Fixpoint FilterLossRate_loop (v : Vars) (s data : PingDelaySet) : PingDelaySet :=
  match s with
  | [] => data
  | x :: rest =>
      let (rate, x') := getLossRate x in
      if fgt rate (InputMaxLossRate v) then data
      else FilterLossRate_loop v rest (data ++ [x'])
  end.

Definition FilterLossRate (v : Vars) (s : PingDelaySet) : PingDelaySet :=
  if fge (InputMaxLossRate v) maxLossRate then s
  else FilterLossRate_loop v s [].

End utils.

Import utils.

(** ** Package sort of Go's library: the interface and the contract of Sort *)

Module sort.

(** [sort.Interface]. An index out of range makes [Less] and [Swap] panic:
    [None]. [Less] returns the collection as the call leaves it, because a
    method may write to it (the loss rate cache of [PingDelaySet]). *)
Class Interface (T : Type) := {
  Len : T -> nat;
  Less : T -> nat -> nat -> option (bool * T);
  Swap : T -> nat -> nat -> option T
}.

Section Contract.
Context {T : Type} (I : Interface T).

(** What a run of [sort.Sort] does to the data: calls of [Less] and [Swap],
    none of which panics. *)
Inductive sort_calls : T -> T -> Prop :=
| calls_done : forall s, sort_calls s s
| calls_less : forall s i j b s1 s2,
    Less s i j = Some (b, s1) -> sort_calls s1 s2 -> sort_calls s s2
| calls_swap : forall s i j s1 s2,
    Swap s i j = Some s1 -> sort_calls s1 s2 -> sort_calls s s2.

(** The data is in ascending order as determined by [Less]: no element is
    less than one before it. *)
Definition ascending (s : T) : Prop :=
  forall i j, (i < j < Len s)%nat -> exists s1, Less s j i = Some (false, s1).

(** Modelled from the documentation of Go's [sort.Sort] (the function is
    not part of this repository): it sorts the data in ascending order as
    determined by [Less], through calls of [Less] and [Swap] only. *)
Definition Sort (s s' : T) : Prop := sort_calls s s' /\ ascending s'.

(** The inner loop of Go's [insertionSort]:
    [for j := i; j > 0 && data.Less(j, j-1); j-- { data.Swap(j, j-1) }]. *)
Fixpoint insert_down (j : nat) (s : T) : option T :=
  match j with
  | O => Some s
  | S j' =>
      match Less s j j' with
      | None => None
      | Some (false, s1) => Some s1
      | Some (true, s1) =>
          match Swap s1 j j' with
          | None => None
          | Some s2 => insert_down j' s2
          end
      end
  end.

(** The outer loop, [for i := 1; i < n; i++], with [n] iterations left. *)
Fixpoint insertion_loop (n i : nat) (s : T) : option T :=
  match n with
  | O => Some s
  | S n' =>
      match insert_down i s with
      | None => None
      | Some s1 => insertion_loop n' (S i) s1
      end
  end.

(** [insertionSort(data, 0, data.Len())], which is what [sort.Sort] runs on
    a collection of at most 12 elements. *)
Definition insertionSort (s : T) : option T :=
  insertion_loop (Len s - 1) 1 s.

End Contract.

End sort.

Import sort.

(** ** The two sort.Interface implementations of csv.go *)

Module utils_sort.

(** The assignment [s[i] = x]; the index is in range where it is used. *)
Fixpoint set_nth {A : Type} (i : nat) (x : A) (l : list A) : list A :=
  match l, i with
  | [], _ => []
  | _ :: t, O => x :: t
  | h :: t, S i' => h :: set_nth i' x t
  end.

(** [PingDelaySet.Less]: the two calls of [getLossRate] write the rate into
    [s[i]] and then into [s[j]]. *)
Definition PingDelaySet_Less (s : PingDelaySet) (i j : nat)
  : option (bool * PingDelaySet) :=
  match nth_error s i with
  | None => None
  | Some x =>
      let (iRate, x') := getLossRate x in
      let s1 := set_nth i x' s in
      match nth_error s1 j with
      | None => None
      | Some y =>
          let (jRate, y') := getLossRate y in
          let s2 := set_nth j y' s1 in
          Some (if fne iRate jRate then flt iRate jRate
                else Delay (pingData x') <? Delay (pingData y'),
                s2)
      end
  end.

(** [s[i], s[j] = s[j], s[i]]. *)
Definition slice_Swap (s : list CloudflareIPData) (i j : nat)
  : option (list CloudflareIPData) :=
  match nth_error s i, nth_error s j with
  | Some x, Some y => Some (set_nth j x (set_nth i y s))
  | _, _ => None
  end.

#[export] Instance PingDelaySet_Interface : Interface PingDelaySet := {
  Len := fun s => List.length s;
  Less := PingDelaySet_Less;
  Swap := slice_Swap
}.

(** [DownloadSpeedSet.Less]: the faster record first. *)
Definition DownloadSpeedSet_Less (s : DownloadSpeedSet) (i j : nat)
  : option (bool * DownloadSpeedSet) :=
  match nth_error s i, nth_error s j with
  | Some x, Some y => Some (fgt (DownloadSpeed x) (DownloadSpeed y), s)
  | _, _ => None
  end.

#[export] Instance DownloadSpeedSet_Interface : Interface DownloadSpeedSet := {
  Len := fun s => List.length s;
  Less := DownloadSpeedSet_Less;
  Swap := slice_Swap
}.

(** The loss rate read off a record, as the exporter reads it. *)
Definition loss (x : CloudflareIPData) : float32 := fst (getLossRate x).

End utils_sort.

Import utils_sort.

(** ** Package task: tcping.go *)

Module tcping.

Definition maxRoutine : Z := 1000.
Definition defaultRoutines : Z := 200.
Definition defaultPort : Z := 443.
Definition defaultPingTimes : Z := 4.

(** The package variables [Routines], [TCPPort] and [PingTimes]. *)
Record PingVars := mkPingVars {
  Routines : Z;
  TCPPort : Z;
  PingTimes : Z
}.

Definition checkPingDefault (p : PingVars) : PingVars :=
  let p1 := if Routines p <=? 0
            then mkPingVars defaultRoutines (TCPPort p) (PingTimes p) else p in
  let p2 := if (TCPPort p1 <=? 0) || (65535 <=? TCPPort p1)
            then mkPingVars (Routines p1) defaultPort (PingTimes p1) else p1 in
  if PingTimes p2 <=? 0
  then mkPingVars (Routines p2) (TCPPort p2) defaultPingTimes else p2.

(** What [checkConnection] returns for one address: the number of
    successful probes, the sum of their delays and the location tag. The
    probes go over the network; their outcome is an input of the model. *)
Record Probe := mkProbe {
  probe_ip : IPAddr;
  probe_recv : Z;
  probe_totalDelay : Z;
  probe_colo : string
}.

(** [tcpingHandler] followed by [appendIPData]: an address none of whose
    probes succeeded leaves no record; the division of durations is Go's
    integer division, which truncates. *)
Definition tcpingHandler (p : PingVars) (csv : PingDelaySet) (r : Probe)
  : PingDelaySet :=
  if probe_recv r =? 0 then csv
  else
    let data := mkPingData (probe_ip r) (PingTimes p) (probe_recv r)
                  (wrap64 (Z.quot (probe_totalDelay r) (probe_recv r)))
                  (probe_colo r) in
    csv ++ [newIPData data].

(** The accumulator [p.csv] once every handler has returned. The handlers
    run concurrently and append under the mutex: [completed] lists the
    outcomes in the order in which the handlers got there. *)
Definition collect (p : PingVars) (completed : list Probe) : PingDelaySet :=
  fold_left (tcpingHandler p) completed [].

(** [Ping.Run]: with no address it returns the empty accumulator, otherwise
    it sorts the accumulator and returns it. *)
Definition Run (p : PingVars) (completed : list Probe) (result : PingDelaySet)
  : Prop :=
  match completed with
  | [] => result = []
  | _ :: _ => Sort PingDelaySet_Interface (collect p completed) result
  end.

(** [NewPing] checks the variables before the run. *)
Definition NewPing_Run (p : PingVars) (completed : list Probe)
  (result : PingDelaySet) : Prop :=
  Run (checkPingDefault p) completed result.

End tcping.

Import tcping.

(** ** Package task: ip.go *)

Module ip.

(** [strings.IndexByte]: the index of the first [c] in [s], or -1. *)
Fixpoint IndexByte (s : string) (c : ascii) : Z :=
  match s with
  | EmptyString => -1
  | String a rest =>
      if Ascii.eqb a c then 0
      else let i := IndexByte rest c in if i <? 0 then -1 else i + 1
  end.

(** [strings.HasPrefix]: [s] begins with [p]. *)
Fixpoint HasPrefix (s p : string) : bool :=
  match p, s with
  | EmptyString, _ => true
  | String a p', String b s' => Ascii.eqb a b && HasPrefix s' p'
  | String _ _, EmptyString => false
  end.

(** [strings.Contains]: [sub] occurs in [s]. *)
Fixpoint Contains (s sub : string) : bool :=
  if HasPrefix s sub then true
  else match s with
       | EmptyString => false
       | String _ rest => Contains rest sub
       end.

(** The slice expression [s[i:]]. *)
Fixpoint suffix_from (i : nat) (s : string) : string :=
  match i, s with
  | O, _ => s
  | S i', String _ rest => suffix_from i' rest
  | S _, EmptyString => EmptyString
  end.

Definition isIPv4 (ip : string) : bool := Contains ip ".".

(** [net.IPNet]: the network number and the mask. *)
Record IPNet := mkIPNet {
  net_IP : IPAddr;
  net_Mask : list Z
}.

Record IPRanges := mkIPRanges {
  ips : list IPAddr;
  mask : string;
  firstIP : IPAddr;
  ipNet : IPNet
}.

Definition newIPRanges : IPRanges := mkIPRanges [] "" [] (mkIPNet [] []).

Definition set_mask (m : string) (r : IPRanges) : IPRanges :=
  mkIPRanges (ips r) m (firstIP r) (ipNet r).

Definition set_firstIP (a : IPAddr) (r : IPRanges) : IPRanges :=
  mkIPRanges (ips r) (mask r) a (ipNet r).

(** [fixIP] returns the specification with its mask, and the receiver with
    the mask recorded. *)
Definition fixIP (r : IPRanges) (ip : string) : string * IPRanges :=
  let i := IndexByte ip "/" in
  if i <? 0 then
    let r' := set_mask (if isIPv4 ip then "/32" else "/128") r in
    ((ip ++ mask r')%string, r')
  else (ip, set_mask (suffix_from (Z.to_nat i) ip) r).

Definition appendIP (r : IPRanges) (a : IPAddr) : IPRanges :=
  mkIPRanges (ips r ++ [a]) (mask r) (firstIP r) (ipNet r).

(** Byte [i] of an address; [net.ParseCIDR] returns sixteen bytes, and the
    code reads bytes 12 to 15 of them. *)
Definition byte_at (a : list Z) (i : nat) : Z := nth i a 0.

(** [net.IPv4(a, b, c, d)]: the sixteen-byte form of an IPv4 address. *)
Definition IPv4 (a b c d : Z) : IPAddr :=
  [0; 0; 0; 0; 0; 0; 0; 0; 0; 0; 255; 255; a; b; c; d].

Definition appendIPv4 (r : IPRanges) (d : Z) : IPRanges :=
  appendIP r (IPv4 (byte_at (firstIP r) 12) (byte_at (firstIP r) 13)
                   (byte_at (firstIP r) 14) d).

(** The big-endian value of a byte string: what [strconv.ParseInt] reads
    off the hexadecimal form [m.String()]. *)
Definition be_value (bs : list Z) : Z :=
  fold_left (fun acc b => acc * 256 + b) bs 0.

(** [getIPRange]: the least last byte and the number of hosts. ParseInt
    with 32 bits returns the largest int32 when the value is out of range. *)
Definition getIPRange (r : IPRanges) : Z * Z :=
  let minIP := Z.land (byte_at (firstIP r) 15) (byte_at (net_Mask (ipNet r)) 3) in
  let m := map (fun v => Z.lxor 255 v) (net_Mask (ipNet r)) in
  let total := Z.min (be_value m) (2 ^ 31 - 1) in
  if 255 <? total then (minIP, 255) else (minIP, total mod 256).

Section Expander.

(** [net.ParseCIDR] and [IPNet.Contains] of Go's library, and the raw draws
    of the process-wide random source. *)
Variable ParseCIDR : string -> option (IPAddr * IPNet).
Variable NetContains : IPNet -> IPAddr -> bool.
Variable rand_source : nat -> Z.
Variable TestAll : bool.

(** [rand.Intn(n)] as draw number [k] of the source. *)
Definition Intn (k : nat) (n : Z) : Z * nat := (rand_source k mod n, S k).

(** [randIPEndWith]; the second component counts the draws made so far. *)
Definition randIPEndWith (k : nat) (num : Z) : Z * nat :=
  if num =? 0 then (0, k)
  else let (v, k') := Intn k num in (v mod 256, k').

(** [parseCIDR]: a specification that does not parse ends the process
    ([log.Fatalln]): [None]. *)
Definition parseCIDR (r : IPRanges) (ip : string) : option IPRanges :=
  let (fixed, r1) := fixIP r ip in
  match ParseCIDR fixed with
  | None => None
  | Some (first, n) => Some (mkIPRanges (ips r1) (mask r1) first n)
  end.

(** The increment with carry of bytes 14, 13 and 12 of [firstIP]. *)
Definition next_prefix (a : IPAddr) : IPAddr :=
  let b14 := (byte_at a 14 + 1) mod 256 in
  let a1 := set_nth 14 b14 a in
  if b14 =? 0 then
    let b13 := (byte_at a1 13 + 1) mod 256 in
    let a2 := set_nth 13 b13 a1 in
    if b13 =? 0 then set_nth 12 ((byte_at a2 12 + 1) mod 256) a2 else a2
  else a1.

(** [for i := 0; i <= int(hosts); i++ { r.appendIPv4(byte(i) + minIP) }] *)
Fixpoint appendAll (n : nat) (i minIP : Z) (r : IPRanges) : IPRanges :=
  match n with
  | O => r
  | S n' => appendAll n' (i + 1) minIP (appendIPv4 r ((i mod 256 + minIP) mod 256))
  end.

(** The loop of [chooseIPv4], which runs while the cursor is in the
    network; [fuel] bounds the iterations of the model ([None]: not done
    within the bound). *)
Fixpoint chooseIPv4_loop (fuel : nat) (minIP hosts : Z) (r : IPRanges) (k : nat)
  : option (IPRanges * nat) :=
  if NetContains (ipNet r) (firstIP r) then
    match fuel with
    | O => None
    | S fuel' =>
        let (r1, k1) :=
          if TestAll then (appendAll (Z.to_nat (hosts + 1)) 0 minIP r, k)
          else let (v, k') := randIPEndWith k hosts in
               (appendIPv4 r ((minIP + v) mod 256), k') in
        chooseIPv4_loop fuel' minIP hosts
          (set_firstIP (next_prefix (firstIP r1)) r1) k1
    end
  else Some (r, k).

Definition chooseIPv4 (fuel : nat) (r : IPRanges) (k : nat)
  : option (IPRanges * nat) :=
  if String.eqb (mask r) "/32" then Some (appendIP r (firstIP r), k)
  else let (minIP, hosts) := getIPRange r in chooseIPv4_loop fuel minIP hosts r k.

(** The inner loop of [chooseIPv6], from byte [i] down to byte 0: add a
    draw to the byte and stop unless the byte wrapped around. *)
Fixpoint climb (n : nat) (a : IPAddr) (k : nat) : IPAddr * nat :=
  match n with
  | O => (a, k)
  | S i =>
      let tempIP := byte_at a i in
      let (v, k') := randIPEndWith k 255 in
      let b := (tempIP + v) mod 256 in
      let a' := set_nth i b a in
      if tempIP <=? b then (a', k') else climb i a' k'
  end.

Fixpoint chooseIPv6_loop (fuel : nat) (r : IPRanges) (k : nat)
  : option (IPRanges * nat) :=
  if NetContains (ipNet r) (firstIP r) then
    match fuel with
    | O => None
    | S fuel' =>
        let (v15, k1) := randIPEndWith k 255 in
        let (v14, k2) := randIPEndWith k1 255 in
        let a := set_nth 14 v14 (set_nth 15 v15 (firstIP r)) in
        let r1 := appendIP (set_firstIP a r) a in
        let (a', k3) := climb 14 a k2 in
        chooseIPv6_loop fuel' (set_firstIP a' r1) k3
    end
  else Some (r, k).

Definition chooseIPv6 (fuel : nat) (r : IPRanges) (k : nat)
  : option (IPRanges * nat) :=
  if String.eqb (mask r) "/128" then Some (appendIP r (firstIP r), k)
  else chooseIPv6_loop fuel r k.

(** One turn of the loop of [loadIPRanges] on a trimmed, non-empty
    specification: parse it, then choose its addresses. *)
Definition expand (fuel : nat) (r : IPRanges) (k : nat) (spec : string)
  : option (IPRanges * nat) :=
  match parseCIDR r spec with
  | None => None
  | Some r1 => if isIPv4 spec then chooseIPv4 fuel r1 k else chooseIPv6 fuel r1 k
  end.

(** [loadIPRanges] over the trimmed specifications; empty ones are skipped. *)
Fixpoint loadIPRanges_from (fuel : nat) (r : IPRanges) (k : nat)
  (specs : list string) : option (IPRanges * nat) :=
  match specs with
  | [] => Some (r, k)
  | spec :: rest =>
      if String.eqb spec "" then loadIPRanges_from fuel r k rest
      else match expand fuel r k spec with
           | None => None
           | Some (r1, k1) => loadIPRanges_from fuel r1 k1 rest
           end
  end.

Definition loadIPRanges (fuel : nat) (specs : list string) : option (list IPAddr) :=
  match loadIPRanges_from fuel newIPRanges O specs with
  | None => None
  | Some (r, _) => Some (ips r)
  end.

End Expander.

End ip.

Import ip.

(** ** Package task: download.go *)

Module download.

Definition defaultURL : string := "https://cf.xiu2.xyz/url".
Definition defaultTimeout : Z := 10 * Second.
Definition defaultDisableDownload : bool := false.
Definition defaultTestNum : Z := 10.
Definition defaultMinSpeed : float64 := fzero.

(** The package variables [URL], [Timeout], [Disable], [TestCount] and
    [MinSpeed]. *)
Record DownloadVars := mkDownloadVars {
  URL : string;
  Timeout : Z;
  Disable : bool;
  TestCount : Z;
  MinSpeed : float64
}.

Definition checkDownloadDefault (d : DownloadVars) : DownloadVars :=
  let d1 := if String.eqb (URL d) ""
            then mkDownloadVars defaultURL (Timeout d) (Disable d) (TestCount d) (MinSpeed d)
            else d in
  let d2 := if Timeout d1 <=? 0
            then mkDownloadVars (URL d1) defaultTimeout (Disable d1) (TestCount d1) (MinSpeed d1)
            else d1 in
  let d3 := if TestCount d2 <=? 0
            then mkDownloadVars (URL d2) (Timeout d2) (Disable d2) defaultTestNum (MinSpeed d2)
            else d2 in
  if fle (MinSpeed d3) fzero
  then mkDownloadVars (URL d3) (Timeout d3) (Disable d3) (TestCount d3) defaultMinSpeed
  else d3.

Definition set_TestCount (n : Z) (d : DownloadVars) : DownloadVars :=
  mkDownloadVars (URL d) (Timeout d) (Disable d) n (MinSpeed d).

(** The local [testNum]: the length of the queue of the loop. *)
Definition testNum (d : DownloadVars) (ipSet : PingDelaySet) : Z :=
  if (Z.of_nat (List.length ipSet) <? TestCount d) || fgt (MinSpeed d) fzero
  then Z.of_nat (List.length ipSet)
  else TestCount d.

(** The threshold [MinSpeed*1024*1024], in bytes per second. *)
Definition threshold (d : DownloadVars) : float64 :=
  f64_mul (f64_mul (MinSpeed d) (float64_of_int 1024)) (float64_of_int 1024).

(** A measured candidate meets the minimum speed. *)
Definition qualifies (d : DownloadVars) (x : CloudflareIPData) : bool :=
  fge (DownloadSpeed x) (threshold d).

(** What a call of [TestDownloadSpeed] leaves: the set it returns, the
    package variables ([TestCount] may have been lowered), the caller's
    slice, whose elements the function writes to, and the indexes of the
    candidates handed to [downloadHandler], in the order of the calls. *)
Record Outcome := mkOutcome {
  speedSet : DownloadSpeedSet;
  vars_after : DownloadVars;
  ipSet_after : PingDelaySet;
  measured : list nat
}.

Section Download.

(** [downloadHandler] measures over the network: the speed and the tag it
    returns for the candidate at index [i] are an input of the model. *)
Variable downloadHandler : nat -> IPAddr -> float64 * string.

(** [sort.Sort] on a [DownloadSpeedSet] (see [sort.Sort] for its contract). *)
Variable sort_Sort : DownloadSpeedSet -> DownloadSpeedSet.

(** The body of the loop for index [i], up to the test of the speed: the
    element [ipSet[i]] with the speed attached and the tag filled in when
    it had none. *)
Definition attach (i : nat) (x : CloudflareIPData) : CloudflareIPData :=
  let (speed, colo) := downloadHandler i (IP (pingData x)) in
  let x1 := set_DownloadSpeed speed x in
  if String.eqb (Colo (pingData x1)) "" then set_Colo colo x1 else x1.

(** [for i := 0; i < testNum; i++], with [n] iterations left. [None]: an
    index out of range (a panic). *)
Fixpoint download_loop (d : DownloadVars) (n i : nat) (ipSet : PingDelaySet)
  (acc : DownloadSpeedSet) (calls : list nat)
  : option (PingDelaySet * DownloadSpeedSet * list nat) :=
  match n with
  | O => Some (ipSet, acc, calls)
  | S n' =>
      match nth_error ipSet i with
      | None => None
      | Some x =>
          let x' := attach i x in
          let ipSet' := set_nth i x' ipSet in
          let calls' := calls ++ [i] in
          if qualifies d x' then
            let acc' := acc ++ [x'] in
            if Z.of_nat (List.length acc') =? TestCount d
            then Some (ipSet', acc', calls')
            else download_loop d n' (S i) ipSet' acc' calls'
          else download_loop d n' (S i) ipSet' acc calls'
      end
  end.

(** The candidates of [l], which start at index [i], each as the loop
    leaves it once measured. *)
Fixpoint attach_from (i : nat) (l : list CloudflareIPData) : list CloudflareIPData :=
  match l with
  | [] => []
  | x :: rest => attach i x :: attach_from (S i) rest
  end.

Definition TestDownloadSpeed (v : Vars) (d0 : DownloadVars) (ipSet : PingDelaySet)
  : option Outcome :=
  let d := checkDownloadDefault d0 in
  if Disable d then Some (mkOutcome ipSet d ipSet [])
  else if (List.length ipSet <=? 0)%nat then Some (mkOutcome [] d ipSet [])
  else
    let tn := testNum d ipSet in
    let d' := if tn <? TestCount d then set_TestCount tn d else d in
    match download_loop d' (Z.to_nat tn) O ipSet [] [] with
    | None => None
    | Some (ipSet', acc, calls) =>
        if feq (MinSpeed d') fzero then
          Some (mkOutcome (sort_Sort ipSet') d' (sort_Sort ipSet') calls)
        else if Debug v && (List.length acc =? 0)%nat then
          Some (mkOutcome (sort_Sort ipSet') d' (sort_Sort ipSet') calls)
        else Some (mkOutcome (sort_Sort acc) d' ipSet' calls)
    end.

End Download.

End download.

Import download.

(** ** Package task: the location tag of a response (httping.go) *)

Module httping.











End httping.

Import httping.

(** ** Reference definitions the properties are stated with *)

Module reference.

(** The longest prefix whose elements all satisfy [f]. *)
Fixpoint takeWhile {A : Type} (f : A -> bool) (l : list A) : list A :=
  match l with
  | [] => []
  | x :: rest => if f x then x :: takeWhile f rest else []
  end.

(** The delay filter as the specification words it: walk the sequence in
    order up to the first record whose delay exceeds the maximum, and of
    the records walked keep those whose delay is not below the minimum. *)
Definition window_scan (v : Vars) (s : PingDelaySet) : PingDelaySet :=
  filter (fun x => InputMinDelay v <=? Delay (pingData x))
         (takeWhile (fun x => Delay (pingData x) <=? InputMaxDelay v) s).

(** A sequence sorted by loss rate: no record has a smaller rate than one
    before it. *)
Definition sorted_by_loss (s : PingDelaySet) : Prop :=
  StronglySorted (fun a b => fle (loss a) (loss b) = true) s.

(** A record after a call of [getLossRate] on it. *)
Definition memo (x : CloudflareIPData) : CloudflareIPData := snd (getLossRate x).

(** The loss rate filter as the specification words it: keep the records
    in order up to the first one whose loss rate exceeds the ceiling. *)
Definition ceiling_scan (v : Vars) (s : PingDelaySet) : PingDelaySet :=
  takeWhile (fun x => negb (fgt (loss x) (InputMaxLossRate v))) s.

(** Later calls of [getLossRate] on a record, each after an assignment of
    the two counts: the rates the calls return. *)
Fixpoint later_calls (cf : CloudflareIPData) (writes : list (Z * Z)) : list float32 :=
  match writes with
  | [] => []
  | (sended, received) :: rest =>
      let (rate, cf') := getLossRate (set_counts sended received cf) in
      rate :: later_calls cf' rest
  end.

(** The cache holds nothing (zero) or the rate of the record's counts. *)
Definition cache_ok (x : CloudflareIPData) : Prop :=
  feq (lossRate x) fzero = true \/ lossRate x = computeLossRate (pingData x).

(** The mask a specification without one is given. *)
Definition single_mask (spec : string) : string :=
  if isIPv4 spec then "/32" else "/128".

(** A record the probe run built: its cache is empty or holds its rate,
    and the number of probes sent is a non-zero [int]. *)
Definition well_formed (x : CloudflareIPData) : Prop :=
  cache_ok x /\ Sended (pingData x) <> 0 /\ in_int64 (Sended (pingData x)).

(** The order of [PingDelaySet.Less] on the records themselves. *)
Definition key_less (x y : CloudflareIPData) : bool :=
  if fne (loss x) (loss y) then flt (loss x) (loss y)
  else Delay (pingData x) <? Delay (pingData y).

(** The insertion of a record before the first one it is less than. *)
Fixpoint insert_sorted (x : CloudflareIPData) (l : PingDelaySet) : PingDelaySet :=
  match l with
  | [] => [x]
  | h :: t => if key_less x h then x :: h :: t else h :: insert_sorted x t
  end.

(** A sorted arrangement of a set: the records inserted one by one. *)
Definition sorted_copy (l : PingDelaySet) : PingDelaySet :=
  fold_right insert_sorted [] l.

(** A slice reached from another by calls of [Swap] alone. *)
Inductive swaps : list CloudflareIPData -> list CloudflareIPData -> Prop :=
| swaps_done : forall s, swaps s s
| swaps_step : forall s i j s1 s2,
    slice_Swap s i j = Some s1 -> swaps s1 s2 -> swaps s s2.

(** No record of [l] is less than the one before it. *)
Definition pairwise_sorted (l : PingDelaySet) : Prop :=
  StronglySorted (fun a b => key_less b a = false) l.

(** The float32 constants 0.25 and 0.5. *)
Definition f32_quarter : float32 := f32_div (float32_of_int 1) (float32_of_int 4).
Definition f32_half : float32 := f32_div (float32_of_int 1) (float32_of_int 2).

(** A record with a delay in milliseconds and the two counts. *)
Definition sample (ip : IPAddr) (ms sended received : Z) : CloudflareIPData :=
  newIPData (mkPingData ip sended received (ms * Millisecond) "").

(** A toy resolver standing for [net.ParseCIDR] in examples: it knows one
    IPv4 and one IPv6 single-address range. *)
Definition sample_ParseCIDR (spec : string) : option (IPAddr * IPNet) :=
  if String.eqb spec "1.1.1.1/32"
  then Some (IPv4 1 1 1 1, mkIPNet [1; 1; 1; 1] [255; 255; 255; 255])
  else if String.eqb spec "2606:4700::/128"
  then Some ([38; 6; 71; 0; 0; 0; 0; 0; 0; 0; 0; 0; 0; 0; 0; 0],
             mkIPNet [38; 6; 71; 0; 0; 0; 0; 0; 0; 0; 0; 0; 0; 0; 0; 0]
                     (repeat 255 16))
  else None.

(** [sort.Sort] on at most 12 elements, as a function on a
    [DownloadSpeedSet]: the insertion sort (which does not panic). *)
Definition sort_speed (s : DownloadSpeedSet) : DownloadSpeedSet :=
  match insertionSort DownloadSpeedSet_Interface s with
  | Some s' => s'
  | None => s
  end.

(** The float64 constants 1.0 and 2 * 1024 * 1024. *)
Definition f64_one : float64 := float64_of_int 1.
Definition f64_two_MiB : float64 := float64_of_int (2 * 1024 * 1024).

(** Download variables with a desired count and a minimum speed. *)
Definition sample_vars (count : Z) (minSpeed : float64) : DownloadVars :=
  mkDownloadVars defaultURL defaultTimeout false count minSpeed.

(** Three candidates. *)
Definition three_candidates : PingDelaySet :=
  [sample [1;1;1;1] 50 4 4; sample [2;2;2;2] 150 4 4; sample [3;3;3;3] 300 4 4].

(** The outcomes of a probe run of four probes each, in the order of
    completion: 3.3.3.3 answered twice (100 ms on average), 1.1.1.1 and
    2.2.2.2 four times (50 ms and 200 ms), 9.9.9.9 never. *)
Definition sample_probes : list Probe :=
  [mkProbe [3;3;3;3] 2 (200 * Millisecond) "";
   mkProbe [1;1;1;1] 4 (200 * Millisecond) "";
   mkProbe [9;9;9;9] 0 0 "";
   mkProbe [2;2;2;2] 4 (800 * Millisecond) ""].

(** [sort.Sort] on at most 12 elements, as a function on a [PingDelaySet]. *)
Definition sort_delay (s : PingDelaySet) : PingDelaySet :=
  match insertionSort PingDelaySet_Interface s with
  | Some s' => s'
  | None => s
  end.

End reference.

Import reference.

(** ** Package task: the probes of one address (tcping.go) *)

Module probe.

(** The loop of [checkConnection] in TCP mode, with [n] attempts left:
    [tcping i] is the outcome of attempt [i], success and connect time. *)
Fixpoint checkConnection_loop (n i : nat) (tcping : nat -> bool * Z)
  (recv totalDelay : Z) : Z * Z :=
  match n with
  | O => (recv, totalDelay)
  | S n' =>
      let (ok, delay) := tcping i in
      if ok
      then checkConnection_loop n' (S i) tcping (wrap64 (recv + 1))
             (wrap64 (totalDelay + delay))
      else checkConnection_loop n' (S i) tcping recv totalDelay
  end.

(** [checkConnection]: in HTTP mode what [httping] returns (that method is
    in httping.go; its result is an input here), otherwise [PingTimes]
    connection attempts and no location tag. *)
Definition checkConnection (Httping : bool) (httping : Z * Z * string)
  (p : PingVars) (tcping : nat -> bool * Z) : Z * Z * string :=
  if Httping then httping
  else
    let (recv, totalDelay) :=
      checkConnection_loop (Z.to_nat (PingTimes p)) O tcping 0 0 in
    (recv, totalDelay, EmptyString).

(** The outcome of the probes of one address in TCP mode. *)
Definition tcp_probe (p : PingVars) (ip : IPAddr) (tcping : nat -> bool * Z)
  : Probe :=
  let '(recv, totalDelay, colo) := checkConnection false (0, 0, EmptyString) p tcping in
  mkProbe ip recv totalDelay colo.

End probe.

Import probe.

(** ** Further reference definitions *)

Module notions.

(** The delay of a record lies in the configured window. *)
Definition in_window (v : Vars) (x : CloudflareIPData) : bool :=
  (InputMinDelay v <=? Delay (pingData x)) && (Delay (pingData x) <=? InputMaxDelay v).

(** The configuration under which [FilterDelay] filters: a window within
    the default bounds that is not the whole default range. *)
Definition window_active (v : Vars) : Prop :=
  minDelay <= InputMinDelay v /\ InputMaxDelay v <= maxDelay /\
  ~ (InputMaxDelay v = maxDelay /\ InputMinDelay v = minDelay).

(** A sequence sorted by delay. *)
Definition sorted_by_delay (s : PingDelaySet) : Prop :=
  StronglySorted (fun a b => Delay (pingData a) <= Delay (pingData b)) s.

(** What [s.Less(i, j)] returns, the state it leaves aside. *)
Definition less_of (s : PingDelaySet) (i j : nat) : option bool :=
  option_map fst (PingDelaySet_Less s i j).

(** The record [tcpingHandler] builds for an address that answered. *)
Definition record_of (p : PingVars) (r : Probe) : CloudflareIPData :=
  newIPData (mkPingData (probe_ip r) (PingTimes p) (probe_recv r)
               (wrap64 (Z.quot (probe_totalDelay r) (probe_recv r)))
               (probe_colo r)).





(** Modelled from the documentation of Go's [net.CIDRMask(ones, 32)] (the
    function is Go's library): the four bytes of the mask with [ones]
    leading one bits. *)
Definition CIDRMask32 (ones : Z) : list Z :=
  let m := 2 ^ 32 - 2 ^ (32 - ones) in
  [m / 2 ^ 24; (m / 2 ^ 16) mod 256; (m / 2 ^ 8) mod 256; m mod 256].

(** An address of sixteen bytes, each a byte. *)
Definition is_address (a : IPAddr) : Prop :=
  List.length a = 16%nat /\ Forall (fun b => 0 <= b < 256) a.


(** The address answered at least one probe. *)
Definition answered (r : Probe) : bool := negb (probe_recv r =? 0).

(** The number of successful attempts among attempts [i] to [i + n - 1]. *)
Definition successes (i n : nat) (tcping : nat -> bool * Z) : nat :=
  List.length (filter (fun a => fst (tcping a)) (seq i n)).

(** The sum of the connect times of the successful attempts. *)
Definition connect_time (i n : nat) (tcping : nat -> bool * Z) : Z :=
  fold_right (fun a acc => if fst (tcping a) then snd (tcping a) + acc else acc)
    0 (seq i n).


(** The IPv4 address with the first three bytes of the cursor [a] and the
    last byte [d]. *)
Definition in_block (a : IPAddr) (d : Z) : IPAddr :=
  IPv4 (byte_at a 12) (byte_at a 13) (byte_at a 14) d.

(** The address a specification without a mask parses to. *)
Definition parsed_address (ParseCIDR : string -> option (IPAddr * IPNet))
  (spec : string) : IPAddr :=
  match ParseCIDR (spec ++ single_mask spec)%string with
  | Some (a, _) => a
  | None => []
  end.


End notions.

Import notions.

(** ** The delay filter *)

Lemma FilterDelay_loop_acc v s data :
  FilterDelay_loop v s data = data ++ FilterDelay_loop v s [].
Proof.
  revert data.
  induction s as [|x rest IH]; intros data; simpl.
  - now rewrite app_nil_r.
  - destruct (InputMaxDelay v <? Delay (pingData x)).
    + now rewrite app_nil_r.
    + destruct (Delay (pingData x) <? InputMinDelay v).
      * apply IH.
      * rewrite (IH (data ++ [x])), (IH [x]). now rewrite app_assoc.
Qed.

Lemma FilterDelay_loop_scan v s :
  FilterDelay_loop v s [] = window_scan v s.
Proof.
  unfold window_scan.
  induction s as [|x rest IH]; simpl; [reflexivity|].
  destruct (Z.ltb_spec (InputMaxDelay v) (Delay (pingData x))) as [Hgt|Hle].
  - replace (Delay (pingData x) <=? InputMaxDelay v) with false
      by (symmetry; apply Z.leb_gt; lia).
    reflexivity.
  - replace (Delay (pingData x) <=? InputMaxDelay v) with true
      by (symmetry; apply Z.leb_le; lia).
    simpl.
    destruct (Z.ltb_spec (Delay (pingData x)) (InputMinDelay v)) as [Hlo|Hhi].
    + replace (InputMinDelay v <=? Delay (pingData x)) with false
        by (symmetry; apply Z.leb_gt; lia).
      exact IH.
    + replace (InputMinDelay v <=? Delay (pingData x)) with true
        by (symmetry; apply Z.leb_le; lia).
      rewrite FilterDelay_loop_acc, IH. reflexivity.
Qed.

Lemma takeWhile_stops {A : Type} (f : A -> bool) pre x post :
  Forall (fun y => f y = true) pre -> f x = false ->
  takeWhile f (pre ++ x :: post) = pre.
Proof.
  intros Hpre Hx.
  induction Hpre as [|y pre Hy _ IH]; simpl.
  - now rewrite Hx.
  - now rewrite Hy, IH.
Qed.

(** In a proper window the filter is the loop. *)
Lemma FilterDelay_proper v s :
  minDelay <= InputMinDelay v -> InputMaxDelay v <= maxDelay ->
  ~ (InputMaxDelay v = maxDelay /\ InputMinDelay v = minDelay) ->
  FilterDelay v s = FilterDelay_loop v s [].
Proof.
  intros Hmin Hmax Hne. unfold FilterDelay.
  replace (maxDelay <? InputMaxDelay v) with false
    by (symmetry; apply Z.ltb_ge; lia).
  replace (InputMinDelay v <? minDelay) with false
    by (symmetry; apply Z.ltb_ge; lia).
  simpl.
  destruct (Z.eqb_spec (InputMaxDelay v) maxDelay) as [E1|N1];
    destruct (Z.eqb_spec (InputMinDelay v) minDelay) as [E2|N2];
    simpl; try reflexivity.
  exfalso. apply Hne. now split.
Qed.

(** C10. Whenever the configured window reaches outside the default bounds
    (the maximum above 9999 ms or the minimum below 0), [FilterDelay]
    returns its input unchanged: the same records in the same order. *)
Theorem FilterDelay_outside_default_is_identity (v : Vars) (s : PingDelaySet) :
  maxDelay < InputMaxDelay v \/ InputMinDelay v < minDelay ->
  FilterDelay v s = s.
Proof.
  intros H. unfold FilterDelay.
  destruct (Z.ltb_spec maxDelay (InputMaxDelay v)) as [_|Hmax]; [reflexivity|].
  destruct (Z.ltb_spec (InputMinDelay v) minDelay) as [_|Hmin]; [reflexivity|].
  lia.
Qed.

Lemma FilterDelay_outside_default_witness :
  FilterDelay (mkVars (10000 * Millisecond) (100 * Millisecond) maxLossRate false)
              [sample [1;1;1;1] 50 4 4; sample [2;2;2;2] 12000 4 4;
               sample [3;3;3;3] 150 4 4]
  = [sample [1;1;1;1] 50 4 4; sample [2;2;2;2] 12000 4 4;
     sample [3;3;3;3] 150 4 4].
Proof.
  apply FilterDelay_outside_default_is_identity.
  left. vm_compute. reflexivity.
Defined.

(** C3, as stated, fails on the full default window [0 ms, 9999 ms], which
    lies inside the default range: there the filter returns the input
    unchanged, and a record behind one of 10000 ms is still returned. *)
Lemma FilterDelay_default_window_counterexample :
  let v := mkVars maxDelay minDelay maxLossRate false in
  let s := [sample [1;1;1;1] 50 4 4; sample [2;2;2;2] 10000 4 4;
            sample [3;3;3;3] 150 4 4] in
  (minDelay <= InputMinDelay v /\ InputMaxDelay v <= maxDelay) /\
  FilterDelay v s = s /\
  window_scan v s = [sample [1;1;1;1] 50 4 4] /\
  FilterDelay v s <> window_scan v s.
Proof.
  vm_compute. repeat split; try discriminate.
Qed.

(** C3, as the code has it. For a window inside the default range that is
    not the whole default range, [FilterDelay] walks the sequence in order,
    skips the records below the minimum, keeps those within the window and
    stops at the first record above the maximum: no record behind that one
    is returned, whatever its delay. The window [100 ms, 200 ms] over
    delays 50, 150, 300 gives exactly the 150 ms record. *)
Theorem FilterDelay_window_scan (v : Vars) (s : PingDelaySet) :
  minDelay <= InputMinDelay v -> InputMaxDelay v <= maxDelay ->
  ~ (InputMaxDelay v = maxDelay /\ InputMinDelay v = minDelay) ->
  FilterDelay v s = window_scan v s /\
  (forall pre x post,
      s = pre ++ x :: post ->
      Forall (fun y => Delay (pingData y) <= InputMaxDelay v) pre ->
      InputMaxDelay v < Delay (pingData x) ->
      FilterDelay v s
      = filter (fun y => InputMinDelay v <=? Delay (pingData y)) pre) /\
  (forall a b c,
      InputMinDelay v = 100 * Millisecond -> InputMaxDelay v = 200 * Millisecond ->
      Delay (pingData a) = 50 * Millisecond ->
      Delay (pingData b) = 150 * Millisecond ->
      Delay (pingData c) = 300 * Millisecond ->
      s = [a; b; c] -> FilterDelay v s = [b]).
Proof.
  intros Hmin Hmax Hne.
  assert (E : FilterDelay v s = window_scan v s).
  { rewrite FilterDelay_proper by assumption. apply FilterDelay_loop_scan. }
  split; [exact E|]. split.
  - intros pre x post Hs Hpre Hx. rewrite E. unfold window_scan. subst s.
    rewrite takeWhile_stops; [reflexivity| |].
    + eapply Forall_impl; [|exact Hpre]. intros y Hy. apply Z.leb_le. exact Hy.
    + apply Z.leb_gt. exact Hx.
  - intros a b c Hlo Hhi Ha Hb Hc Hs. rewrite E. subst s.
    destruct v as [vmax vmin vloss vdbg].
    destruct a as [[? ? ? da ?] ? ?], b as [[? ? ? db ?] ? ?], c as [[? ? ? dc ?] ? ?].
    simpl in Hlo, Hhi, Ha, Hb, Hc. subst vmax vmin da db dc.
    reflexivity.
Qed.

Lemma FilterDelay_window_scan_witness :
  let v := mkVars (200 * Millisecond) (100 * Millisecond) maxLossRate false in
  let s := [sample [1;1;1;1] 50 4 4; sample [2;2;2;2] 150 4 4;
            sample [3;3;3;3] 300 4 4] in
  FilterDelay v s = [sample [2;2;2;2] 150 4 4].
Proof.
  intros v s.
  assert (H1 : minDelay <= InputMinDelay v) by (vm_compute; discriminate).
  assert (H2 : InputMaxDelay v <= maxDelay) by (vm_compute; discriminate).
  assert (H3 : ~ (InputMaxDelay v = maxDelay /\ InputMinDelay v = minDelay))
    by (intros [H _]; vm_compute in H; discriminate H).
  exact (proj2 (proj2 (FilterDelay_window_scan v s H1 H2 H3))
           (sample [1;1;1;1] 50 4 4) (sample [2;2;2;2] 150 4 4)
           (sample [3;3;3;3] 300 4 4)
           eq_refl eq_refl eq_refl eq_refl eq_refl eq_refl).
Defined.

(** ** Facts on the floating-point operations *)

Lemma SFcompare_swap x y :
  SFcompare y x = option_map CompOpp (SFcompare x y).
Proof.
  destruct x as [sx|sx| |sx mx ex], y as [sy|sy| |sy my ey]; simpl;
    try reflexivity;
    try (destruct sx; reflexivity); try (destruct sy; reflexivity);
    try (destruct sx, sy; reflexivity).
  destruct sx, sy; simpl; try reflexivity;
    rewrite (Z.compare_antisym ex ey);
    destruct (ex ?= ey) eqn:E; simpl; try reflexivity.
  all: change (Pos.compare_cont Eq my mx) with (Pos.compare my mx);
    change (Pos.compare_cont Eq mx my) with (Pos.compare mx my);
    rewrite (Pos.compare_antisym mx my); try rewrite CompOpp_involutive; reflexivity.
Qed.

Lemma SFcompare_number x y :
  is_nan x = false -> is_nan y = false -> exists c, SFcompare x y = Some c.
Proof.
  destruct x, y; simpl; intros; try discriminate; eauto.
Qed.

(** Between two numbers, [<=] is the negation of [>]. *)
Lemma fle_not_fgt x y :
  is_nan x = false -> is_nan y = false -> fle x y = negb (fgt x y).
Proof.
  intros Hx Hy. unfold fle, fgt, SFleb, SFltb.
  rewrite (SFcompare_swap x y).
  destruct (SFcompare_number x y Hx Hy) as [c ->]. now destruct c.
Qed.

(** The comparison of numbers is transitive. *)
Lemma SFcompare_trans x y z c1 c2 :
  SFcompare x y = Some c1 -> SFcompare y z = Some c2 ->
  c1 <> Gt -> c2 <> Gt ->
  SFcompare x z = Some (match c1, c2 with Eq, Eq => Eq | _, _ => Lt end).
Proof.
  destruct x as [sx|sx| |sx mx ex], y as [sy|sy| |sy my ey],
           z as [sz|sz| |sz mz ez]; simpl;
    try discriminate;
    try (destruct sx); try (destruct sy); try (destruct sz); simpl;
    intros H1 H2 N1 N2;
    try (injection H1 as <-); try (injection H2 as <-);
    try congruence;
    change (Pos.compare_cont Eq) with Pos.compare in *;
    repeat match goal with
    | |- context [Z.compare ?a ?b] => destruct (Z.compare_spec a b)
    | H : context [Z.compare ?a ?b] |- _ => destruct (Z.compare_spec a b)
    | |- context [Pos.compare ?a ?b] => destruct (Pos.compare_spec a b)
    | H : context [Pos.compare ?a ?b] |- _ => destruct (Pos.compare_spec a b)
    end; simpl in *; try congruence; try lia.
Qed.

Lemma digits2_pos_size p : digits2_pos p = Pos.size p.
Proof. induction p; simpl; congruence. Qed.

Lemma Zdigits2_log2 m : 0 < m -> Zdigits2 m = Z.log2 m + 1.
Proof.
  destruct m as [|p|p]; try lia. intros _. simpl.
  destruct p; simpl; rewrite ?digits2_pos_size; lia.
Qed.

Lemma shr_1_m r : 0 <= shr_m r -> shr_m (shr_1 r) = shr_m r / 2.
Proof.
  destruct r as [m b s]. simpl. intros H.
  destruct m as [|p|p]; try lia; [reflexivity|].
  destruct p; simpl.
  - rewrite Pos2Z.inj_xI. apply Z.div_unique with 1; lia.
  - rewrite Pos2Z.inj_xO. apply Z.div_unique with 0; lia.
  - reflexivity.
Qed.

Lemma iter_shr_1_m p : forall r,
  0 <= shr_m r -> shr_m (iter_pos shr_1 p r) = shr_m r / 2 ^ Zpos p.
Proof.
  induction p as [p IH|p IH|]; intros r H; simpl iter_pos.
  - assert (H1 : 0 <= shr_m (shr_1 r)).
    { rewrite shr_1_m by assumption. apply Z.div_pos; lia. }
    assert (H2 : 0 <= shr_m (iter_pos shr_1 p (shr_1 r))).
    { rewrite IH by assumption. apply Z.div_pos; lia. }
    rewrite IH by assumption. rewrite IH by assumption.
    rewrite shr_1_m by assumption.
    rewrite !Z.div_div by lia.
    f_equal. change 2 with (2 ^ 1) at 1.
    rewrite <- !Z.pow_add_r by lia. f_equal. lia.
  - assert (H2 : 0 <= shr_m (iter_pos shr_1 p r)).
    { rewrite IH by assumption. apply Z.div_pos; lia. }
    rewrite IH by assumption. rewrite IH by assumption.
    rewrite !Z.div_div by lia.
    f_equal. rewrite <- Z.pow_add_r by lia. f_equal. lia.
  - rewrite shr_1_m by assumption. reflexivity.
Qed.

Lemma shr_record_of_loc_m m l : shr_m (shr_record_of_loc m l) = m.
Proof. destruct l as [|[ | | ]]; reflexivity. Qed.

(** A right shift of a non-negative mantissa divides it by a power of two. *)
Lemma shr_spec r e n :
  0 <= shr_m r -> 0 <= n ->
  shr_m (fst (shr r e n)) = shr_m r / 2 ^ n /\ snd (shr r e n) = e + n.
Proof.
  intros Hm Hn. destruct n as [|p|p]; try lia; simpl.
  - rewrite Z.div_1_r. split; [reflexivity|lia].
  - split; [apply iter_shr_1_m; assumption|reflexivity].
Qed.

Lemma round_nearest_even_range m l :
  m <= round_nearest_even m l <= m + 1.
Proof.
  destruct l as [|[ | | ]]; simpl; try lia. destruct (Z.even m); lia.
Qed.

Section Rounding.
Variables prec emax : Z.
Hypothesis prec_gt_1 : 1 < prec.

Lemma shr_fexp_nonneg m e l :
  0 <= m -> 0 <= shr_m (fst (shr_fexp prec emax m e l)).
Proof.
  intros Hm. unfold shr_fexp.
  set (n := fexp prec emax (Zdigits2 m + e) - e).
  destruct (Z.le_gt_cases 0 n) as [Hn|Hn].
  - destruct (shr_spec (shr_record_of_loc m l) e n) as [-> _];
      rewrite ?shr_record_of_loc_m; try assumption.
    apply Z.div_pos; lia.
  - destruct n; try lia. simpl. rewrite shr_record_of_loc_m. assumption.
Qed.

(** Rounding a non-negative mantissa never gives a NaN. *)
Lemma binary_round_aux_number sx mx ex lx :
  0 <= mx -> is_nan (binary_round_aux prec emax sx mx ex lx) = false.
Proof.
  intros Hm. unfold binary_round_aux.
  pose proof (shr_fexp_nonneg mx ex lx Hm) as H1.
  destruct (shr_fexp prec emax mx ex lx) as [r1 e1]. simpl in H1.
  pose proof (round_nearest_even_range (shr_m r1) (loc_of_shr_record r1)) as Hr.
  pose proof (shr_fexp_nonneg
                (round_nearest_even (shr_m r1) (loc_of_shr_record r1)) e1 loc_Exact) as H2.
  destruct (shr_fexp prec emax _ e1 loc_Exact) as [r2 e2]. simpl in H2.
  assert (0 <= shr_m r2) as H3 by (apply H2; lia).
  destruct (shr_m r2) as [|p|p]; try lia; [reflexivity|].
  destruct (e2 <=? emax - prec); reflexivity.
Qed.

(** One shift to the format's exponent, for a mantissa of at least [prec]
    digits in the normal range: the mantissa keeps exactly [prec] digits. *)
Lemma shr_fexp_normal m e l :
  0 < m -> prec <= Zdigits2 m -> emin prec emax <= e ->
  let r := shr_fexp prec emax m e l in
  2 ^ (prec - 1) <= shr_m (fst r) < 2 ^ prec /\
  snd r = e + (Zdigits2 m - prec).
Proof.
  intros Hm Hd He. unfold shr_fexp.
  assert (Hn : fexp prec emax (Zdigits2 m + e) - e = Zdigits2 m - prec).
  { unfold fexp. lia. }
  rewrite Hn. remember (Zdigits2 m - prec) as n eqn:En.
  assert (Hn0 : 0 <= n) by lia.
  destruct (shr_spec (shr_record_of_loc m l) e n) as [E1 E2];
    rewrite ?shr_record_of_loc_m; try lia.
  cbv zeta. rewrite E1, E2, shr_record_of_loc_m. split; [|reflexivity].
  pose proof (Z.log2_spec m Hm) as Hlog.
  rewrite Zdigits2_log2 in * by assumption.
  assert (Hlog2 : Z.log2 m = (prec - 1) + n) by lia.
  rewrite Hlog2 in Hlog.
  replace (Z.succ (prec - 1 + n)) with (prec + n) in Hlog by lia.
  rewrite !Z.pow_add_r in Hlog by lia.
  assert (0 < 2 ^ n) by (apply Z.pow_pos_nonneg; lia).
  split.
  - apply Z.div_le_lower_bound; lia.
  - apply Z.div_lt_upper_bound; lia.
Qed.

Lemma Zdigits2_bounds m k :
  0 <= k -> 2 ^ k <= m < 2 ^ (k + 1) -> Zdigits2 m = k + 1.
Proof.
  intros Hk Hm.
  assert (0 < m) by (assert (0 < 2 ^ k) by (apply Z.pow_pos_nonneg; lia); lia).
  rewrite Zdigits2_log2 by assumption. f_equal.
  apply Z.log2_unique; [assumption|]. replace (Z.succ k) with (k + 1) by lia. assumption.
Qed.

(** Rounding a positive mantissa of at least [prec] digits gives a finite
    number as long as the exponent stays below the format's bound. *)
Lemma binary_round_aux_finite sx mx ex lx :
  0 < mx -> prec <= Zdigits2 mx -> emin prec emax <= ex ->
  Zdigits2 mx + ex + 1 <= emax ->
  exists m e, binary_round_aux prec emax sx mx ex lx = S754_finite sx m e.
Proof.
  intros Hm Hd He Hmax. unfold binary_round_aux.
  destruct (shr_fexp_normal mx ex lx Hm Hd He) as [Hr1 He1].
  destruct (shr_fexp prec emax mx ex lx) as [r1 e1]. simpl in Hr1, He1.
  pose proof (round_nearest_even_range (shr_m r1) (loc_of_shr_record r1)) as Hr.
  set (m1 := round_nearest_even (shr_m r1) (loc_of_shr_record r1)) in *.
  assert (Hpow : 2 ^ prec = 2 * 2 ^ (prec - 1)).
  { replace prec with (1 + (prec - 1)) at 1 by lia.
    rewrite Z.pow_add_r by lia. reflexivity. }
  assert (Hpos : 0 < 2 ^ (prec - 1)) by (apply Z.pow_pos_nonneg; lia).
  assert (Hm1 : 0 < m1) by lia.
  assert (Hd1 : Zdigits2 m1 = prec \/ (Zdigits2 m1 = prec + 1 /\ m1 = 2 ^ prec)).
  { destruct (Z.eq_dec m1 (2 ^ prec)) as [E|N].
    - right. split; [|assumption]. apply Zdigits2_bounds; [lia|].
      rewrite E. rewrite (Z.pow_add_r 2 prec 1) by lia. change (2 ^ 1) with 2. lia.
    - left. rewrite (Zdigits2_bounds m1 (prec - 1)); [lia|lia|].
      replace (prec - 1 + 1) with prec by lia. lia. }
  assert (Hd1' : prec <= Zdigits2 m1) by lia.
  assert (He1' : emin prec emax <= e1) by lia.
  destruct (shr_fexp_normal m1 e1 loc_Exact Hm1 Hd1' He1') as [Hr2 He2].
  destruct (shr_fexp prec emax m1 e1 loc_Exact) as [r2 e2]. simpl in Hr2, He2.
  destruct (shr_m r2) as [|p|p]; try lia.
  replace (e2 <=? emax - prec) with true; [eauto|].
  symmetry. apply Z.leb_le. lia.
Qed.

End Rounding.

Lemma float32_of_int_number z : is_nan (float32_of_int z) = false.
Proof.
  unfold float32_of_int, binary_normalize, binary_round.
  destruct z as [|p|p]; [reflexivity| |];
    destruct (shl_align _ _ _) as [mz ez];
    apply binary_round_aux_number; lia.
Qed.

Lemma shl_align_spec mx ex ex' :
  let r := shl_align mx ex ex' in
  Zpos (fst r) = Zpos mx * 2 ^ (ex - snd r) /\ snd r = Z.min ex ex'.
Proof.
  unfold shl_align. destruct (ex' - ex) as [|d|d] eqn:E; cbv zeta; cbn [fst snd].
  - replace (ex - ex) with 0 by lia. split; lia.
  - replace (ex - ex) with 0 by lia. split; lia.
  - split; [|lia].
    replace (ex - ex') with (Zpos d) by lia.
    change (Pos.iter xO mx d) with (Zpower.shift_pos d mx).
    rewrite Zpower.shift_pos_correct. rewrite Z.mul_comm.
    rewrite Zpower.Zpower_pos_nat, Zpower.Zpower_nat_Z, positive_nat_Z. reflexivity.
Qed.

(** A non-zero integer below 2^64 in absolute value converts to a finite
    non-zero float32. *)
Lemma float32_of_int_finite z :
  z <> 0 -> - 2 ^ 64 < z < 2 ^ 64 ->
  exists s m e, float32_of_int z = S754_finite s m e.
Proof.
  intros Hz Hr.
  assert (G : forall s p, Zpos p < 2 ^ 64 ->
              exists m e, binary_round prec32 emax32 s p 0 = S754_finite s m e).
  { intros s p Hp. unfold binary_round.
    pose proof (shl_align_spec p 0 (fexp prec32 emax32 (Zpos (digits2_pos p) + 0))) as H.
    cbv zeta in H.
    destruct (shl_align p 0 _) as [mz ez]. cbn [fst snd] in H. destruct H as [A B].
    pose proof (Z.log2_spec (Zpos p) ltac:(lia)) as Hlog.
    assert (Hd : Zpos (digits2_pos p) = Z.log2 (Zpos p) + 1)
      by (apply (Zdigits2_log2 (Zpos p)); lia).
    assert (Hlog64 : Z.log2 (Zpos p) < 64) by (apply Z.log2_lt_pow2; lia).
    pose proof (Z.log2_nonneg (Zpos p)) as Hlog0.
    assert (Hfexp : fexp prec32 emax32 (Zpos (digits2_pos p) + 0)
                    = Z.log2 (Zpos p) + 1 - 24).
    { unfold fexp, emin, prec32, emax32. lia. }
    rewrite Hfexp in B.
    assert (Hdz : Zdigits2 (Zpos mz) = Z.log2 (Zpos p) + 1 + (0 - ez)).
    { rewrite Zdigits2_log2 by lia. rewrite A.
      rewrite Z.log2_mul_pow2 by lia. lia. }
    apply binary_round_aux_finite; unfold prec32, emax32, emin in *; try lia. }
  unfold float32_of_int, binary_normalize.
  destruct z as [|p|p]; try lia.
  - destruct (G false p) as (m & e & E); [lia|]. eauto.
  - destruct (G true p) as (m & e & E); [lia|]. eauto.
Qed.

Lemma SFdiv_core_nonneg prec emax m1 e1 m2 e2 :
  0 < m1 -> 0 < m2 ->
  0 <= fst (fst (SFdiv_core_binary prec emax m1 e1 m2 e2)).
Proof.
  intros H1 H2. unfold SFdiv_core_binary.
  set (s := _ - _ - _).
  set (m' := match s with Z0 => m1 | Zpos _ => Z.shiftl m1 s | Zneg _ => 0 end).
  assert (Hm' : 0 <= m').
  { unfold m'. destruct s; try lia. apply Z.shiftl_nonneg. lia. }
  pose proof (Z_div_mod m' m2 ltac:(lia)) as Hdm.
  destruct (Z.div_eucl m' m2) as [q r]. simpl.
  destruct Hdm as [Hq Hr]. nia.
Qed.

Lemma f32_div_number x y :
  is_nan x = false ->
  (exists s m e, y = S754_finite s m e) ->
  is_nan (f32_div x y) = false.
Proof.
  intros Hx (sy & my & ey & ->). unfold f32_div.
  destruct x as [sx|sx| |sx mx ex]; try discriminate; try reflexivity.
  simpl.
  pose proof (SFdiv_core_nonneg prec32 emax32 (Zpos mx) ex (Zpos my) ey
                ltac:(lia) ltac:(lia)) as Hq.
  destruct (SFdiv_core_binary _ _ _ _ _ _) as [[q e'] l]. simpl in Hq.
  apply binary_round_aux_number. assumption.
Qed.


(** ** The loss rate and its cache *)

Lemma computeLossRate_number d :
  Sended d <> 0 -> in_int64 (Sended d) -> is_nan (computeLossRate d) = false.
Proof.
  intros Hs Hr. unfold computeLossRate.
  apply f32_div_number.
  - apply float32_of_int_number.
  - apply float32_of_int_finite; [assumption|]. unfold in_int64 in Hr. lia.
Qed.

Lemma getLossRate_cache_ok x :
  cache_ok x ->
  getLossRate x = (computeLossRate (pingData x),
                   set_lossRate (computeLossRate (pingData x)) x).
Proof.
  intros [H|H]; unfold getLossRate.
  - rewrite H. reflexivity.
  - destruct (feq (lossRate x) fzero) eqn:E; [reflexivity|].
    rewrite H. destruct x as [d l sp]. simpl in *. now subst l.
Qed.

Lemma getLossRate_pingData x : pingData (snd (getLossRate x)) = pingData x.
Proof. unfold getLossRate. destruct (feq _ _); reflexivity. Qed.

Lemma getLossRate_cached x :
  feq (lossRate x) fzero = false -> getLossRate x = (lossRate x, x).
Proof. intros H. unfold getLossRate. now rewrite H. Qed.

Lemma later_calls_cached r : forall writes x,
  lossRate x = r -> feq r fzero = false ->
  Forall (fun y => y = r) (later_calls x writes).
Proof.
  induction writes as [|[sended received] rest IH]; intros x Hx Hr; simpl.
  - constructor.
  - rewrite getLossRate_cached by (simpl; now rewrite Hx).
    constructor; [simpl; assumption|].
    apply IH; [simpl; assumption|assumption].
Qed.

(** C2, as stated, fails for a record without loss: the rate 0 is also the
    mark of an empty cache, so the next call computes the rate again, from
    the counts as they are then. *)
Lemma getLossRate_caching_counterexample :
  let cf := sample [1;1;1;1] 50 4 4 in
  let first := getLossRate cf in
  let second := getLossRate (set_counts 4 2 (snd first)) in
  fst first = fzero /\ fst second = f32_half /\ fst second <> fst first.
Proof.
  vm_compute. repeat split. discriminate.
Qed.

(** C2, as the code has it. On a record whose cache is empty, the first
    call of [getLossRate] returns [(Sended - Received) / Sended]. When that
    rate is not zero, every later call returns the same value, whatever is
    assigned to [Sended] and [Received] between the calls. A rate of zero
    is not kept: a later call computes the rate of the counts it finds. *)
Theorem getLossRate_first_call_and_cache (cf : CloudflareIPData) :
  feq (lossRate cf) fzero = true ->
  let first := getLossRate cf in
  fst first = computeLossRate (pingData cf) /\
  (feq (fst first) fzero = false ->
   forall writes, Forall (fun r => r = fst first) (later_calls (snd first) writes)) /\
  (feq (fst first) fzero = true ->
   forall sended received,
     fst (getLossRate (set_counts sended received (snd first)))
     = computeLossRate (pingData (set_counts sended received (snd first)))).
Proof.
  intros Hfresh first.
  assert (E : first = (computeLossRate (pingData cf),
                       set_lossRate (computeLossRate (pingData cf)) cf)).
  { unfold first, getLossRate. rewrite Hfresh. reflexivity. }
  rewrite E. simpl fst. simpl snd. split; [reflexivity|]. split.
  - intros Hnz writes. apply later_calls_cached; [reflexivity|assumption].
  - intros Hz sended received. unfold getLossRate at 1. simpl lossRate.
    rewrite Hz. reflexivity.
Qed.

Lemma getLossRate_first_call_and_cache_witness :
  let cf := sample [1;1;1;1] 50 4 3 in
  fst (getLossRate cf) = f32_quarter /\
  later_calls (snd (getLossRate cf)) [(4, 1); (8, 0)] = [f32_quarter; f32_quarter].
Proof.
  intros cf.
  pose proof (getLossRate_first_call_and_cache cf eq_refl) as [H1 [H2 _]].
  split; [exact H1|].
  specialize (H2 eq_refl [(4, 1); (8, 0)]).
  vm_compute. reflexivity.
Defined.

(** ** The loss rate filter *)

Lemma FilterLossRate_loop_acc v s data :
  FilterLossRate_loop v s data = data ++ FilterLossRate_loop v s [].
Proof.
  revert data.
  induction s as [|x rest IH]; intros data; simpl.
  - now rewrite app_nil_r.
  - destruct (getLossRate x) as [rate x'].
    destruct (fgt rate (InputMaxLossRate v)).
    + now rewrite app_nil_r.
    + rewrite (IH (data ++ [x'])), (IH [x']). now rewrite app_assoc.
Qed.

Lemma FilterLossRate_loop_scan v s :
  FilterLossRate_loop v s [] = map memo (ceiling_scan v s).
Proof.
  unfold ceiling_scan, memo, loss.
  induction s as [|x rest IH]; simpl; [reflexivity|].
  destruct (getLossRate x) as [rate x'] eqn:E. simpl.
  destruct (fgt rate (InputMaxLossRate v)); simpl; [reflexivity|].
  rewrite FilterLossRate_loop_acc, IH, E. reflexivity.
Qed.

Lemma map_pingData_memo s : map pingData (map memo s) = map pingData s.
Proof.
  rewrite map_map. apply map_ext. intros x. apply getLossRate_pingData.
Qed.

Lemma takeWhile_ext_Forall {A : Type} (f g : A -> bool) (P : A -> Prop) l :
  (forall x, P x -> f x = g x) -> Forall P l -> takeWhile f l = takeWhile g l.
Proof.
  intros Hfg Hl. induction Hl as [|x l Hx _ IH]; simpl; [reflexivity|].
  rewrite (Hfg x Hx), IH. reflexivity.
Qed.

Lemma filter_none {A : Type} (f : A -> bool) l :
  Forall (fun x => f x = false) l -> filter f l = [].
Proof.
  induction 1 as [|x t Hx _ IH]; simpl; [reflexivity|]. now rewrite Hx.
Qed.

(** On a sorted sequence, cutting at the first element that fails a test
    which later elements fail too is filtering by the test. *)
Lemma takeWhile_filter_sorted {A : Type} (f : A -> bool) (R : A -> A -> Prop) l :
  (forall a b, R a b -> f a = false -> f b = false) ->
  StronglySorted R l -> takeWhile f l = filter f l.
Proof.
  intros Hmono. induction 1 as [|h t Ht IH Hh]; simpl; [reflexivity|].
  destruct (f h) eqn:E; [now rewrite IH|].
  symmetry. apply filter_none.
  eapply Forall_impl; [|exact Hh]. intros b Hb. eapply Hmono; eassumption.
Qed.

(** A rate above the ceiling is followed by rates above the ceiling. *)
Lemma fgt_fle_trans c x y :
  fgt x c = true -> fle x y = true -> fgt y c = true.
Proof.
  unfold fgt, fle, SFltb, SFleb.
  destruct (SFcompare c x) as [[ | | ]|] eqn:E1; try discriminate.
  destruct (SFcompare x y) as [c2|] eqn:E2; [|discriminate].
  intros _ H2.
  rewrite (SFcompare_trans c x y Lt c2 E1 E2); [reflexivity|discriminate|].
  destruct c2; discriminate.
Qed.

(** C5. With a ceiling of 1.0 or more [FilterLossRate] returns its input
    unchanged. Below that it keeps the records in order up to the first one
    whose loss rate exceeds the ceiling and drops that record and all that
    follow it; the records kept are those whose rate is at most the ceiling
    (rates and ceiling being numbers), each with its rate stored in it. On
    a sequence sorted by loss rate no record behind the cut has a rate
    within the ceiling. A ceiling of 0.25 over the rates 0, 0.25 and 0.5
    keeps the first two. *)
Theorem FilterLossRate_ceiling_scan (v : Vars) (s : PingDelaySet) :
  (fge (InputMaxLossRate v) maxLossRate = true -> FilterLossRate v s = s) /\
  (fge (InputMaxLossRate v) maxLossRate = false ->
   FilterLossRate v s = map memo (ceiling_scan v s) /\
   map pingData (FilterLossRate v s) = map pingData (ceiling_scan v s) /\
   (is_nan (InputMaxLossRate v) = false ->
    Forall (fun x => is_nan (loss x) = false) s ->
    ceiling_scan v s = takeWhile (fun x => fle (loss x) (InputMaxLossRate v)) s) /\
   (forall pre x post,
       s = pre ++ x :: post ->
       Forall (fun y => fgt (loss y) (InputMaxLossRate v) = false) pre ->
       fgt (loss x) (InputMaxLossRate v) = true ->
       FilterLossRate v s = map memo pre) /\
   (sorted_by_loss s ->
    ceiling_scan v s
    = filter (fun x => negb (fgt (loss x) (InputMaxLossRate v))) s)) /\
  (InputMaxLossRate v = f32_quarter ->
   forall a b c,
     loss a = fzero -> loss b = f32_quarter -> loss c = f32_half ->
     s = [a; b; c] -> FilterLossRate v s = [memo a; memo b]).
Proof.
  split; [|split].
  - intros H. unfold FilterLossRate. now rewrite H.
  - intros H.
    assert (E : FilterLossRate v s = map memo (ceiling_scan v s)).
    { unfold FilterLossRate. rewrite H. apply FilterLossRate_loop_scan. }
    split; [exact E|]. split; [rewrite E; apply map_pingData_memo|]. split.
    + intros Hc Hs. unfold ceiling_scan.
      apply takeWhile_ext_Forall with (P := fun x => is_nan (loss x) = false);
        [|exact Hs].
      intros x Hx. symmetry. apply fle_not_fgt; assumption.
    + split.
      * intros pre x post Hs Hpre Hx. rewrite E. unfold ceiling_scan. subst s.
        rewrite takeWhile_stops; [reflexivity| |].
        -- eapply Forall_impl; [|exact Hpre]. intros y Hy. simpl. now rewrite Hy.
        -- now rewrite Hx.
      * intros Hsorted. unfold ceiling_scan.
        apply takeWhile_filter_sorted
          with (R := fun a b => fle (loss a) (loss b) = true); [|exact Hsorted].
        intros a b Hab Ha. apply negb_false_iff in Ha. apply negb_false_iff.
        eapply fgt_fle_trans; eassumption.
  - intros Hc a b c Ha Hb Hc' Hs. subst s.
    unfold FilterLossRate. rewrite Hc.
    replace (fge f32_quarter maxLossRate) with false by (vm_compute; reflexivity).
    rewrite FilterLossRate_loop_scan. unfold ceiling_scan. simpl.
    rewrite Hc, Ha, Hb, Hc'.
    replace (fgt fzero f32_quarter) with false by (vm_compute; reflexivity).
    replace (fgt f32_quarter f32_quarter) with false by (vm_compute; reflexivity).
    replace (fgt f32_half f32_quarter) with true by (vm_compute; reflexivity).
    reflexivity.
Qed.

(** ** The parameter check of the prober *)

(** C7, as stated, fails for a concurrency above the maximum of 1000: the
    check leaves it as it is. *)
Lemma checkPingDefault_above_maximum_counterexample :
  let p := mkPingVars 5000 443 4 in
  maxRoutine < Routines p /\
  Routines (checkPingDefault p) = 5000 /\
  Routines (checkPingDefault p) <> defaultRoutines /\
  maxRoutine < Routines (checkPingDefault p).
Proof.
  vm_compute. repeat split; discriminate.
Qed.

(** C7, as the code has it. [checkPingDefault] resets a concurrency that is
    not positive to 200, a port that is at most 0 or at least 65535 to 443,
    and a probe count that is not positive to 4; it leaves every other
    value unchanged, a concurrency above 1000 included. Afterwards the
    concurrency and the probe count are positive and the port lies strictly
    between 0 and 65535. *)
Theorem checkPingDefault_resets (p : PingVars) :
  let p' := checkPingDefault p in
  (Routines p <= 0 -> Routines p' = 200) /\
  (0 < Routines p -> Routines p' = Routines p) /\
  (TCPPort p <= 0 \/ 65535 <= TCPPort p -> TCPPort p' = 443) /\
  (0 < TCPPort p < 65535 -> TCPPort p' = TCPPort p) /\
  (PingTimes p <= 0 -> PingTimes p' = 4) /\
  (0 < PingTimes p -> PingTimes p' = PingTimes p) /\
  0 < Routines p' /\ 0 < TCPPort p' < 65535 /\ 0 < PingTimes p'.
Proof.
  destruct p as [r t n]. unfold checkPingDefault. cbn [Routines TCPPort PingTimes].
  destruct (Z.leb_spec r 0); cbn [Routines TCPPort PingTimes];
    destruct (Z.leb_spec t 0); destruct (Z.leb_spec 65535 t);
    cbn [orb Routines TCPPort PingTimes];
    destruct (Z.leb_spec n 0); cbn [Routines TCPPort PingTimes];
    unfold defaultRoutines, defaultPort, defaultPingTimes;
    repeat split; intros; lia.
Qed.

(** ** The location tag *)


(** ** The range expander: single addresses *)

Lemma HasPrefix_empty s : HasPrefix s "" = true.
Proof. destruct s; reflexivity. Qed.

Lemma Contains_cons_dot a s :
  Contains (String a s) "." = Ascii.eqb "." a || Contains s ".".
Proof.
  change (Contains (String a s) ".")
    with (if HasPrefix (String a s) "." then true else Contains s ".").
  change (HasPrefix (String a s) ".") with (Ascii.eqb "." a && HasPrefix s "").
  rewrite HasPrefix_empty, andb_true_r.
  destruct (Ascii.eqb "." a); reflexivity.
Qed.

Lemma Contains_dot_app s t :
  Contains t "." = false -> Contains (s ++ t)%string "." = Contains s ".".
Proof.
  intros Ht. induction s as [|a s IH].
  - simpl. rewrite Ht. reflexivity.
  - change (String a s ++ t)%string with (String a (s ++ t)%string).
    rewrite !Contains_cons_dot, IH. reflexivity.
Qed.

Lemma IndexByte_absent_app s c t :
  IndexByte s c < 0 ->
  IndexByte (s ++ String c t)%string c = Z.of_nat (String.length s).
Proof.
  induction s as [|a s IH]; simpl; intros H.
  - rewrite Ascii.eqb_refl. reflexivity.
  - destruct (Ascii.eqb a c); [lia|].
    destruct (IndexByte s c <? 0) eqn:E.
    + apply Z.ltb_lt in E. rewrite IH by assumption.
      replace (Z.of_nat (String.length s) <? 0) with false
        by (symmetry; apply Z.ltb_ge; lia).
      lia.
    + lia.
Qed.

Lemma suffix_from_app s t : suffix_from (String.length s) (s ++ t)%string = t.
Proof.
  induction s as [|a s IH]; simpl; [now destruct t|exact IH].
Qed.

Lemma fixIP_unmasked r spec :
  IndexByte spec "/" < 0 ->
  fixIP r spec = ((spec ++ single_mask spec)%string, set_mask (single_mask spec) r).
Proof.
  intros H. unfold fixIP.
  replace (IndexByte spec "/" <? 0) with true by (symmetry; apply Z.ltb_lt; lia).
  reflexivity.
Qed.

Lemma fixIP_masked r spec :
  IndexByte spec "/" < 0 ->
  fixIP r (spec ++ single_mask spec)%string
  = ((spec ++ single_mask spec)%string, set_mask (single_mask spec) r).
Proof.
  intros H. unfold fixIP.
  assert (E : IndexByte (spec ++ single_mask spec)%string "/" = Z.of_nat (String.length spec)).
  { unfold single_mask. destruct (isIPv4 spec); apply IndexByte_absent_app; assumption. }
  rewrite E.
  replace (Z.of_nat (String.length spec) <? 0) with false
    by (symmetry; apply Z.ltb_ge; lia).
  rewrite Nat2Z.id, suffix_from_app. reflexivity.
Qed.

Lemma isIPv4_masked spec : isIPv4 (spec ++ single_mask spec)%string = isIPv4 spec.
Proof.
  unfold single_mask.
  destruct (isIPv4 spec) eqn:E; unfold isIPv4 in *;
    rewrite Contains_dot_app by reflexivity; exact E.
Qed.

(** C8. A specification without a mask is given the mask /32 when it is an
    IPv4 address and /128 otherwise; it is expanded exactly as the
    specification with that mask appended is; and when it parses, the
    expansion adds one address, the one parsed, and draws no random
    number: loading that specification alone gives that one address. *)
Theorem single_address_range
  (ParseCIDR : string -> option (IPAddr * IPNet))
  (NetContains : IPNet -> IPAddr -> bool) (rand_source : nat -> Z)
  (TestAll : bool) (fuel : nat) (r : IPRanges) (k : nat) (spec : string) :
  IndexByte spec "/" < 0 ->
  fst (fixIP r spec) = (spec ++ single_mask spec)%string /\
  mask (snd (fixIP r spec)) = single_mask spec /\
  expand ParseCIDR NetContains rand_source TestAll fuel r k spec
  = expand ParseCIDR NetContains rand_source TestAll fuel r k
      (spec ++ single_mask spec)%string /\
  (forall first n,
      ParseCIDR (spec ++ single_mask spec)%string = Some (first, n) ->
      expand ParseCIDR NetContains rand_source TestAll fuel r k spec
      = Some (mkIPRanges (ips r ++ [first])%list (single_mask spec) first n, k) /\
      (spec <> EmptyString ->
       loadIPRanges ParseCIDR NetContains rand_source TestAll fuel [spec]
       = Some [first])).
Proof.
  intros H.
  rewrite (fixIP_unmasked r spec H). simpl fst. simpl snd.
  split; [reflexivity|]. split; [reflexivity|]. split.
  - unfold expand, parseCIDR.
    rewrite (fixIP_unmasked r spec H), (fixIP_masked r spec H), isIPv4_masked.
    reflexivity.
  - intros first n Hp.
    assert (E : forall r0 k0,
               expand ParseCIDR NetContains rand_source TestAll fuel r0 k0 spec
               = Some (mkIPRanges (ips r0 ++ [first])%list (single_mask spec) first n,
                       k0)).
    { intros r0 k0. unfold expand, parseCIDR.
      rewrite (fixIP_unmasked r0 spec H), Hp.
      unfold chooseIPv4, chooseIPv6, single_mask. simpl mask.
      destruct (isIPv4 spec); reflexivity. }
    split; [apply E|].
    intros Hne. unfold loadIPRanges. simpl.
    destruct (String.eqb_spec spec "") as [->|_]; [congruence|].
    rewrite E. reflexivity.
Qed.

Lemma single_address_range_witness :
  expand sample_ParseCIDR (fun _ _ => true) (fun i => Z.of_nat i) false 0
         newIPRanges 0 "1.1.1.1"
  = Some (mkIPRanges [IPv4 1 1 1 1] "/32" (IPv4 1 1 1 1)
                     (mkIPNet [1; 1; 1; 1] [255; 255; 255; 255]), O) /\
  expand sample_ParseCIDR (fun _ _ => true) (fun i => Z.of_nat i) false 0
         newIPRanges 0 "2606:4700::"
  = Some (mkIPRanges [[38; 6; 71; 0; 0; 0; 0; 0; 0; 0; 0; 0; 0; 0; 0; 0]] "/128"
                     [38; 6; 71; 0; 0; 0; 0; 0; 0; 0; 0; 0; 0; 0; 0; 0]
                     (mkIPNet [38; 6; 71; 0; 0; 0; 0; 0; 0; 0; 0; 0; 0; 0; 0; 0]
                              (repeat 255 16)), O).
Proof.
  split.
  - apply (proj2 (proj2 (proj2
      (single_address_range sample_ParseCIDR (fun _ _ => true)
         (fun i => Z.of_nat i) false 0 newIPRanges 0 "1.1.1.1" eq_refl)))).
    reflexivity.
  - apply (proj2 (proj2 (proj2
      (single_address_range sample_ParseCIDR (fun _ _ => true)
         (fun i => Z.of_nat i) false 0 newIPRanges 0 "2606:4700::" eq_refl)))).
    reflexivity.
Defined.

(** ** Slices: assignment and swap *)

Lemma set_nth_middle {A : Type} (l1 : list A) x y l2 :
  set_nth (List.length l1) y (l1 ++ x :: l2) = l1 ++ y :: l2.
Proof.
  induction l1 as [|h t IH]; simpl; [reflexivity|now rewrite IH].
Qed.

Lemma nth_error_middle {A : Type} (l1 : list A) x l2 :
  nth_error (l1 ++ x :: l2) (List.length l1) = Some x.
Proof.
  induction l1 as [|h t IH]; simpl; [reflexivity|exact IH].
Qed.

Lemma set_nth_perm {A : Type} (l : list A) : forall j y h,
  nth_error l j = Some y -> Permutation (y :: set_nth j h l) (h :: l).
Proof.
  induction l as [|a t IH]; intros [|j] y h H; simpl in *; try discriminate.
  - injection H as ->. apply perm_swap.
  - eapply perm_trans; [apply perm_swap|].
    eapply perm_trans; [apply perm_skip, IH, H|]. apply perm_swap.
Qed.

Lemma slice_Swap_perm s i j s' :
  slice_Swap s i j = Some s' -> Permutation s' s.
Proof.
  unfold slice_Swap.
  destruct (nth_error s i) as [x|] eqn:Ei; [|discriminate].
  destruct (nth_error s j) as [y|] eqn:Ej; [|discriminate].
  intros H. injection H as <-.
  revert i j x y Ei Ej.
  induction s as [|h t IH]; intros [|i] [|j] x y Ei Ej; simpl in *;
    try discriminate.
  - injection Ei as ->. reflexivity.
  - injection Ei as ->. apply set_nth_perm. exact Ej.
  - injection Ej as ->. apply set_nth_perm. exact Ei.
  - apply perm_skip. eapply IH; eassumption.
Qed.

(** ** The calls of sort.Sort *)

Lemma insert_down_calls {T : Type} (I : Interface T) : forall j s s',
  insert_down I j s = Some s' -> sort_calls I s s'.
Proof.
  induction j as [|j IH]; intros s s' H; simpl in H.
  - injection H as <-. constructor.
  - destruct (Less s (S j) j) as [[[|] s1]|] eqn:EL; try discriminate.
    + destruct (Swap s1 (S j) j) as [s2|] eqn:ES; [|discriminate].
      eapply calls_less; [exact EL|].
      eapply calls_swap; [exact ES|]. apply IH. exact H.
    + injection H as <-. eapply calls_less; [exact EL|constructor].
Qed.

Lemma sort_calls_trans {T : Type} (I : Interface T) s1 s2 s3 :
  sort_calls I s1 s2 -> sort_calls I s2 s3 -> sort_calls I s1 s3.
Proof.
  induction 1; intros H'; [assumption| |].
  - eapply calls_less; eauto.
  - eapply calls_swap; eauto.
Qed.

Lemma insertion_loop_calls {T : Type} (I : Interface T) : forall n i s s',
  insertion_loop I n i s = Some s' -> sort_calls I s s'.
Proof.
  induction n as [|n IH]; intros i s s' H; simpl in H.
  - injection H as <-. constructor.
  - destruct (insert_down I i s) as [s1|] eqn:E; [|discriminate].
    eapply sort_calls_trans; [eapply insert_down_calls; exact E|].
    eapply IH; exact H.
Qed.

Lemma insertionSort_calls {T : Type} (I : Interface T) s s' :
  insertionSort I s = Some s' -> sort_calls I s s'.
Proof. apply insertion_loop_calls. Qed.

(** Sorting a [DownloadSpeedSet] permutes it. *)
Lemma DownloadSpeedSet_calls_perm s s' :
  sort_calls DownloadSpeedSet_Interface s s' -> Permutation s' s.
Proof.
  induction 1 as [s|s i j b s1 s2 HL _ IH|s i j s1 s2 HS _ IH].
  - reflexivity.
  - simpl in HL. unfold DownloadSpeedSet_Less in HL.
    destruct (nth_error s i); [|discriminate].
    destruct (nth_error s j); [|discriminate].
    injection HL as _ <-. exact IH.
  - eapply perm_trans; [exact IH|]. eapply slice_Swap_perm. exact HS.
Qed.

Lemma sort_speed_calls s : sort_calls DownloadSpeedSet_Interface s (sort_speed s).
Proof.
  unfold sort_speed.
  destruct (insertionSort DownloadSpeedSet_Interface s) as [s'|] eqn:E.
  - apply insertionSort_calls. exact E.
  - constructor.
Qed.

(** ** The download phase *)

Section DownloadFacts.

Variable downloadHandler : nat -> IPAddr -> float64 * string.

Local Abbreviation attach := (attach downloadHandler).
Local Abbreviation attach_from := (attach_from downloadHandler).
Local Abbreviation download_loop := (download_loop downloadHandler).


(** The loop measures the candidates of the queue in order, from the first
    one on, and stops before the end of the queue only when the number of
    candidates collected has reached [TestCount]. *)
Lemma download_loop_spec d : forall n done todo acc calls,
  (n <= List.length todo)%nat ->
  exists k, (k <= n)%nat /\
    download_loop d n (List.length done) (done ++ todo) acc calls
    = Some (done ++ attach_from (List.length done) (firstn k todo) ++ skipn k todo,
            acc ++ filter (qualifies d) (attach_from (List.length done) (firstn k todo)),
            calls ++ seq (List.length done) k) /\
    ((k < n)%nat ->
     Z.of_nat (List.length
       (acc ++ filter (qualifies d) (attach_from (List.length done) (firstn k todo))))
     = TestCount d).
Proof.
  induction n as [|n IH]; intros done todo acc calls Hn.
  - exists O. split; [lia|]. simpl. rewrite !app_nil_r. split; [reflexivity|lia].
  - destruct todo as [|x rest]; [simpl in Hn; lia|]. simpl in Hn.
    simpl download_loop. rewrite nth_error_middle, set_nth_middle.
    set (x' := attach (List.length done) x).
    assert (Hshift : done ++ x' :: rest = (done ++ [x']) ++ rest)
      by (rewrite <- app_assoc; reflexivity).
    assert (Hlen : S (List.length done) = List.length (done ++ [x']))
      by (rewrite length_app; simpl; lia).
    destruct (qualifies d x') eqn:Eq.
    + destruct (Z.of_nat (List.length (acc ++ [x'])) =? TestCount d) eqn:Ec.
      * exists 1%nat. split; [lia|]. simpl. fold x'. rewrite Eq. simpl.
        split; [reflexivity|]. intros _. apply Z.eqb_eq. exact Ec.
      * destruct (IH (done ++ [x']) rest (acc ++ [x']) (calls ++ [List.length done])
                    ltac:(lia)) as (k & Hk & E & Hstop).
        exists (S k). split; [lia|].
        rewrite Hshift, Hlen, E. simpl. fold x'. rewrite Eq, <- Hlen.
        rewrite <- !app_assoc. simpl. split; [reflexivity|].
        intros Hlt. rewrite <- Hlen, <- app_assoc in Hstop. simpl in Hstop.
        apply Hstop. lia.
    + destruct (IH (done ++ [x']) rest acc (calls ++ [List.length done])
                  ltac:(lia)) as (k & Hk & E & Hstop).
      exists (S k). split; [lia|].
      rewrite Hshift, Hlen, E. simpl. fold x'. rewrite Eq, <- Hlen.
      rewrite <- !app_assoc. simpl. split; [reflexivity|].
      intros Hlt. rewrite <- Hlen in Hstop. apply Hstop. lia.
Qed.

End DownloadFacts.

Lemma checkDownloadDefault_fields d0 :
  Disable (checkDownloadDefault d0) = Disable d0 /\
  TestCount (checkDownloadDefault d0)
  = (if TestCount d0 <=? 0 then defaultTestNum else TestCount d0) /\
  MinSpeed (checkDownloadDefault d0)
  = (if fle (MinSpeed d0) fzero then defaultMinSpeed else MinSpeed d0).
Proof.
  destruct d0 as [u t dis n m]. unfold checkDownloadDefault.
  cbn [URL Timeout Disable TestCount MinSpeed].
  destruct (String.eqb u ""); cbn [URL Timeout Disable TestCount MinSpeed];
    destruct (t <=? 0); cbn [URL Timeout Disable TestCount MinSpeed];
    destruct (n <=? 0); cbn [URL Timeout Disable TestCount MinSpeed];
    destruct (fle m fzero); cbn [URL Timeout Disable TestCount MinSpeed];
    repeat split.
Qed.

Lemma checkDownloadDefault_TestCount_pos d0 :
  0 < TestCount (checkDownloadDefault d0).
Proof.
  destruct (checkDownloadDefault_fields d0) as (_ & -> & _).
  destruct (Z.leb_spec (TestCount d0) 0); unfold defaultTestNum; lia.
Qed.

(** A positive number is neither at most zero nor equal to zero. *)
Lemma fgt_zero_facts m :
  fgt m fzero = true -> fle m fzero = false /\ feq m fzero = false.
Proof.
  unfold fgt, fle, feq, SFltb, SFleb, SFeqb.
  rewrite (SFcompare_swap m fzero).
  destruct (SFcompare m fzero) as [[ | | ]|]; simpl; intros H;
    try discriminate; split; reflexivity.
Qed.

Lemma checkDownloadDefault_MinSpeed_pos d0 :
  fgt (MinSpeed d0) fzero = true ->
  MinSpeed (checkDownloadDefault d0) = MinSpeed d0.
Proof.
  intros H. destruct (checkDownloadDefault_fields d0) as (_ & _ & ->).
  destruct (fgt_zero_facts _ H) as [-> _]. reflexivity.
Qed.

Lemma qualifies_set_TestCount (c : bool) n d :
  qualifies (if c then set_TestCount n d else d) = qualifies d.
Proof. destruct c; reflexivity. Qed.

Lemma nonempty_length {A : Type} (l : list A) :
  l <> [] -> (List.length l <=? 0)%nat = false.
Proof. destruct l; [congruence|reflexivity]. Qed.

(** What a call that is not disabled, on candidates, comes to: the loop
    over the whole queue, then the choice of the set, then the sort. *)
Lemma TestDownloadSpeed_run downloadHandler sort_Sort v d0 ipSet :
  Disable d0 = false -> ipSet <> [] ->
  let d := checkDownloadDefault d0 in
  let tn := testNum d ipSet in
  let d' := if tn <? TestCount d then set_TestCount tn d else d in
  (Z.to_nat tn <= List.length ipSet)%nat ->
  exists k, (k <= Z.to_nat tn)%nat /\
    let ipSet' := attach_from downloadHandler 0 (firstn k ipSet) ++ skipn k ipSet in
    let acc := filter (qualifies d) (attach_from downloadHandler 0 (firstn k ipSet)) in
    ((k < Z.to_nat tn)%nat -> Z.of_nat (List.length acc) = TestCount d') /\
    TestDownloadSpeed downloadHandler sort_Sort v d0 ipSet
    = Some (if feq (MinSpeed d') fzero
            then mkOutcome (sort_Sort ipSet') d' (sort_Sort ipSet') (seq 0 k)
            else if Debug v && (List.length acc =? 0)%nat
                 then mkOutcome (sort_Sort ipSet') d' (sort_Sort ipSet') (seq 0 k)
                 else mkOutcome (sort_Sort acc) d' ipSet' (seq 0 k)).
Proof.
  intros Hdis Hne d tn d' Htn.
  destruct (download_loop_spec downloadHandler d' (Z.to_nat tn) [] ipSet [] [] Htn)
    as (k & Hk & E & Hstop).
  simpl in E, Hstop.
  unfold d' in E, Hstop at 1. rewrite qualifies_set_TestCount in E, Hstop. fold d' in E.
  exists k. split; [exact Hk|]. cbv zeta. split; [exact Hstop|].
  unfold TestDownloadSpeed. fold d.
  replace (Disable d) with false
    by (symmetry; rewrite <- Hdis; apply (checkDownloadDefault_fields d0)).
  rewrite (nonempty_length ipSet Hne). fold tn. fold d'. rewrite E.
  destruct (feq (MinSpeed d') fzero); [reflexivity|].
  destruct (Debug v && _); reflexivity.
Qed.

Lemma testNum_le_length d ipSet :
  (Z.to_nat (testNum d ipSet) <= List.length ipSet)%nat.
Proof.
  unfold testNum.
  destruct (Z.ltb_spec (Z.of_nat (List.length ipSet)) (TestCount d)); simpl.
  - lia.
  - destruct (fgt (MinSpeed d) fzero); lia.
Qed.

Lemma filter_length_le {A : Type} (f : A -> bool) l :
  (List.length (filter f l) <= List.length l)%nat.
Proof.
  induction l as [|x t IH]; simpl; [lia|]. destruct (f x); simpl; lia.
Qed.




(** C1, as stated, fails when debugging is off: three candidates that
    each measure 0 B/s under a minimum of 1 MB/s give an empty result. *)
Lemma TestDownloadSpeed_no_fallback_counterexample :
  let d0 := sample_vars 10 f64_one in
  let handler := fun (_ : nat) (_ : IPAddr) => (fzero, EmptyString) in
  three_candidates <> [] /\
  fgt (MinSpeed d0) fzero = true /\
  forallb (fun x => negb (qualifies d0 (attach handler 0 x))) three_candidates = true /\
  Debug defaultVars = false /\
  option_map speedSet
    (TestDownloadSpeed handler sort_speed defaultVars d0 three_candidates)
  = Some [].
Proof.
  vm_compute. repeat split. discriminate.
Qed.

(** C1, as the code has it. In a run that is not disabled, on a non-empty
    input with a positive minimum speed that no candidate's measured speed
    meets, every candidate is measured; with the debug mode on,
    [TestDownloadSpeed] returns all of them, each with the speed measured
    for it; with the debug mode off it returns the empty set. *)
Theorem TestDownloadSpeed_none_meets_threshold
  (downloadHandler : nat -> IPAddr -> float64 * string)
  (sort_Sort : DownloadSpeedSet -> DownloadSpeedSet)
  (v : Vars) (d0 : DownloadVars) (ipSet : PingDelaySet) :
  (forall s, sort_calls DownloadSpeedSet_Interface s (sort_Sort s)) ->
  Disable d0 = false -> ipSet <> [] ->
  fgt (MinSpeed d0) fzero = true ->
  Forall (fun x => qualifies d0 x = false) (attach_from downloadHandler 0 ipSet) ->
  exists out,
    TestDownloadSpeed downloadHandler sort_Sort v d0 ipSet = Some out /\
    measured out = seq 0 (List.length ipSet) /\
    (Debug v = true ->
     Permutation (speedSet out) (attach_from downloadHandler 0 ipSet) /\
     speedSet out <> []) /\
    (Debug v = false -> speedSet out = []).
Proof.
  intros Hsort Hdis Hne Hpos Hnone.
  set (d := checkDownloadDefault d0).
  assert (Hmin : MinSpeed d = MinSpeed d0)
    by (apply checkDownloadDefault_MinSpeed_pos; exact Hpos).
  assert (Hq : forall x, qualifies d x = qualifies d0 x).
  { intros x. unfold qualifies, threshold. rewrite Hmin. reflexivity. }
  assert (Htn : testNum d ipSet = Z.of_nat (List.length ipSet)).
  { unfold testNum. rewrite Hmin, Hpos, orb_true_r. reflexivity. }
  destruct (TestDownloadSpeed_run downloadHandler sort_Sort v d0 ipSet Hdis Hne
              (testNum_le_length _ _)) as (k & Hk & Hstop & E).
  cbv zeta in Hk, Hstop, E. fold d in Hk, Hstop, E.
  rewrite Htn in Hk, Hstop, E. rewrite Nat2Z.id in Hk, Hstop.
  set (d' := if Z.of_nat (List.length ipSet) <? TestCount d
             then set_TestCount (Z.of_nat (List.length ipSet)) d else d) in *.
  assert (Hd'pos : 0 < TestCount d').
  { unfold d'. pose proof (checkDownloadDefault_TestCount_pos d0) as Hp. fold d in Hp.
    destruct ipSet; [congruence|].
    destruct (Z.ltb_spec (Z.of_nat (List.length (c :: ipSet))) (TestCount d));
      simpl TestCount; simpl List.length; lia. }
  assert (Hd'min : feq (MinSpeed d') fzero = false).
  { replace (MinSpeed d') with (MinSpeed d0).
    - apply (fgt_zero_facts _ Hpos).
    - unfold d'. destruct (_ <? _); simpl; symmetry; exact Hmin. }
  assert (Hnil : forall j,
             filter (qualifies d) (attach_from downloadHandler 0 (firstn j ipSet)) = []).
  { intros j.
    assert (G : forall l i, Forall (fun x => qualifies d0 x = false)
                              (attach_from downloadHandler i l) ->
                forall j, filter (qualifies d)
                            (attach_from downloadHandler i (firstn j l)) = []).
    { induction l as [|x t IH]; intros i HF [|j']; simpl; try reflexivity.
      inversion HF as [|? ? Hx Ht]; subst.
      rewrite Hq, Hx. apply IH. exact Ht. }
    apply G. exact Hnone. }
  assert (Hkall : k = List.length ipSet).
  { destruct (Nat.eq_dec k (List.length ipSet)) as [|Hneq]; [assumption|].
    exfalso. assert (Hlt : (k < List.length ipSet)%nat) by lia.
    specialize (Hstop Hlt). rewrite Hnil in Hstop. simpl in Hstop. lia. }
  rewrite Hd'min, Hnil in E. simpl List.length in E.
  change (0 =? 0)%nat with true in E. rewrite andb_true_r in E.
  subst k. rewrite firstn_all, skipn_all, app_nil_r in E.
  destruct (Debug v) eqn:Edbg.
  - eexists. split; [exact E|]. simpl. split; [reflexivity|]. split; [|discriminate].
    intros _.
    assert (Hperm : Permutation (sort_Sort (attach_from downloadHandler 0 ipSet))
                                (attach_from downloadHandler 0 ipSet))
      by (apply DownloadSpeedSet_calls_perm, Hsort).
    split; [exact Hperm|].
    intros Hempty. rewrite Hempty in Hperm. apply Permutation_nil in Hperm.
    destruct ipSet; [congruence|discriminate].
  - eexists. split; [exact E|]. simpl. split; [reflexivity|]. split; [discriminate|].
    intros _.
    pose proof (DownloadSpeedSet_calls_perm _ _ (Hsort [])) as Hperm.
    apply Permutation_sym, Permutation_nil in Hperm. exact Hperm.
Qed.

Lemma TestDownloadSpeed_none_meets_threshold_witness :
  exists out,
    TestDownloadSpeed (fun _ _ => (fzero, EmptyString)) sort_speed
      (mkVars maxDelay minDelay maxLossRate true) (sample_vars 10 f64_one)
      three_candidates = Some out /\
    measured out = [0; 1; 2]%nat /\
    Permutation (speedSet out) three_candidates.
Proof.
  destruct (TestDownloadSpeed_none_meets_threshold (fun _ _ => (fzero, EmptyString))
              sort_speed (mkVars maxDelay minDelay maxLossRate true)
              (sample_vars 10 f64_one) three_candidates
              sort_speed_calls eq_refl ltac:(discriminate) eq_refl
              ltac:(repeat constructor))
    as (out & E & Hm & Hdbg & _).
  exists out. split; [exact E|]. split; [exact Hm|].
  exact (proj1 (Hdbg eq_refl)).
Defined.

(** ** The order of the result of the probe run *)

Lemma well_formed_loss x :
  well_formed x ->
  loss x = computeLossRate (pingData x) /\ is_nan (loss x) = false.
Proof.
  intros (Hc & Hs & Hr). unfold loss.
  rewrite (getLossRate_cache_ok x Hc). simpl.
  split; [reflexivity|]. apply computeLossRate_number; assumption.
Qed.

Lemma well_formed_memo x :
  well_formed x -> well_formed (set_lossRate (computeLossRate (pingData x)) x).
Proof.
  intros (Hc & Hs & Hr). split; [|split]; simpl; try assumption.
  right. reflexivity.
Qed.

Lemma Forall_set_nth {A : Type} (P : A -> Prop) l : forall i x,
  Forall P l -> P x -> Forall P (set_nth i x l).
Proof.
  induction l as [|h t IH]; intros [|i] x Hl Hx; simpl; inversion Hl; subst;
    constructor; auto.
Qed.

Lemma nth_error_set_nth_other {A : Type} (l : list A) : forall i j x,
  i <> j -> nth_error (set_nth j x l) i = nth_error l i.
Proof.
  induction l as [|h t IH]; intros [|i] [|j] x H; simpl; try reflexivity;
    try congruence.
  apply IH. congruence.
Qed.

Lemma nth_error_Forall {A : Type} (P : A -> Prop) l i x :
  Forall P l -> nth_error l i = Some x -> P x.
Proof.
  intros Hl Hx. rewrite Forall_forall in Hl. apply Hl.
  eapply nth_error_In. exact Hx.
Qed.

(** On well-formed records [Less] compares the rates of the counts, then
    the delays, and stores the two rates. *)
Lemma PingDelaySet_Less_well_formed s i j x y :
  Forall well_formed s ->
  nth_error s i = Some x -> nth_error s j = Some y -> i <> j ->
  PingDelaySet_Less s i j
  = Some (if fne (loss x) (loss y) then flt (loss x) (loss y)
          else Delay (pingData x) <? Delay (pingData y),
          set_nth j (set_lossRate (computeLossRate (pingData y)) y)
            (set_nth i (set_lossRate (computeLossRate (pingData x)) x) s)).
Proof.
  intros Hs Hx Hy Hij. unfold PingDelaySet_Less.
  pose proof (nth_error_Forall _ _ _ _ Hs Hx) as Wx.
  pose proof (nth_error_Forall _ _ _ _ Hs Hy) as Wy.
  rewrite Hx. rewrite (getLossRate_cache_ok x (proj1 Wx)).
  rewrite nth_error_set_nth_other by congruence. rewrite Hy.
  rewrite (getLossRate_cache_ok y (proj1 Wy)).
  rewrite (proj1 (well_formed_loss x Wx)), (proj1 (well_formed_loss y Wy)).
  reflexivity.
Qed.

Lemma PingDelaySet_Less_preserves s i j b s' :
  Forall well_formed s ->
  PingDelaySet_Less s i j = Some (b, s') -> Forall well_formed s'.
Proof.
  intros Hs. unfold PingDelaySet_Less.
  destruct (nth_error s i) as [x|] eqn:Ex; [|discriminate].
  pose proof (nth_error_Forall _ _ _ _ Hs Ex) as Wx.
  rewrite (getLossRate_cache_ok x (proj1 Wx)).
  set (s1 := set_nth i _ s).
  assert (Hs1 : Forall well_formed s1)
    by (apply Forall_set_nth; [assumption|apply well_formed_memo; assumption]).
  destruct (nth_error s1 j) as [y|] eqn:Ey; [|discriminate].
  pose proof (nth_error_Forall _ _ _ _ Hs1 Ey) as Wy.
  rewrite (getLossRate_cache_ok y (proj1 Wy)).
  intros H. injection H as _ <-.
  apply Forall_set_nth; [assumption|apply well_formed_memo; assumption].
Qed.

Lemma sort_calls_well_formed s s' :
  sort_calls PingDelaySet_Interface s s' ->
  Forall well_formed s -> Forall well_formed s'.
Proof.
  induction 1 as [s|s i j b s1 s2 HL _ IH|s i j s1 s2 HS _ IH]; intros Hs.
  - assumption.
  - apply IH. eapply PingDelaySet_Less_preserves; eassumption.
  - apply IH. eapply Permutation_Forall; [|exact Hs].
    apply Permutation_sym. eapply slice_Swap_perm. exact HS.
Qed.

(** A set of well-formed records in ascending order lists the records by
    loss rate, and within a loss rate by delay. *)
Lemma ascending_ordered s :
  Forall well_formed s -> ascending PingDelaySet_Interface s ->
  forall i j x y, (i < j)%nat ->
    nth_error s i = Some x -> nth_error s j = Some y ->
    flt (loss x) (loss y) = true \/
    (feq (loss x) (loss y) = true /\ Delay (pingData x) <= Delay (pingData y)).
Proof.
  intros Hs Hasc i j x y Hij Hx Hy.
  assert (Hj : (j < List.length s)%nat) by (apply nth_error_Some; congruence).
  destruct (Hasc i j (conj Hij Hj)) as [s1 HL]. simpl in HL.
  rewrite (PingDelaySet_Less_well_formed s j i y x Hs Hy Hx) in HL by lia.
  injection HL as Hb _.
  destruct (well_formed_loss x (nth_error_Forall _ _ _ _ Hs Hx)) as [_ Nx].
  destruct (well_formed_loss y (nth_error_Forall _ _ _ _ Hs Hy)) as [_ Ny].
  destruct (SFcompare_number _ _ Ny Nx) as [c Hc].
  unfold fne, flt, feq, SFeqb, SFltb in *.
  rewrite (SFcompare_swap (loss y) (loss x)), Hc. rewrite Hc in Hb.
  destruct c; simpl in *.
  - right. split; [reflexivity|]. apply Z.ltb_ge. exact Hb.
  - discriminate.
  - left. reflexivity.
Qed.

Lemma Sort_ordered s s' :
  Forall well_formed s -> Sort PingDelaySet_Interface s s' ->
  forall i j x y, (i < j)%nat ->
    nth_error s' i = Some x -> nth_error s' j = Some y ->
    flt (loss x) (loss y) = true \/
    (feq (loss x) (loss y) = true /\ Delay (pingData x) <= Delay (pingData y)).
Proof.
  intros Hs [Hcalls Hasc]. apply ascending_ordered; [|assumption].
  eapply sort_calls_well_formed; eassumption.
Qed.

Lemma collect_well_formed p completed :
  0 < PingTimes p < 2 ^ 63 -> Forall well_formed (collect p completed).
Proof.
  intros Hp. unfold collect.
  assert (G : forall acc, Forall well_formed acc ->
              Forall well_formed (fold_left (tcpingHandler p) completed acc)).
  { induction completed as [|r rest IH]; intros acc Hacc; simpl; [assumption|].
    apply IH. unfold tcpingHandler.
    destruct (probe_recv r =? 0); [assumption|].
    apply Forall_app. split; [assumption|].
    constructor; [|constructor].
    split; [left; reflexivity|]. simpl. unfold in_int64. lia. }
  apply G. constructor.
Qed.

Lemma key_less_compare x y :
  key_less x y
  = match SFcompare (loss x) (loss y) with
    | Some Lt => true
    | Some Eq => Delay (pingData x) <? Delay (pingData y)
    | _ => false
    end.
Proof.
  unfold key_less, fne, flt, SFeqb, SFltb.
  destruct (SFcompare (loss x) (loss y)) as [[ | | ]|]; reflexivity.
Qed.

Lemma key_less_asym x y : key_less x y = true -> key_less y x = false.
Proof.
  rewrite !key_less_compare, (SFcompare_swap (loss x) (loss y)).
  destruct (SFcompare (loss x) (loss y)) as [[ | | ]|]; simpl; try discriminate;
    try reflexivity.
  intros H. apply Z.ltb_lt in H. apply Z.ltb_ge. lia.
Qed.

Lemma key_less_trans x y z :
  is_nan (loss x) = false -> is_nan (loss y) = false -> is_nan (loss z) = false ->
  key_less x y = true -> key_less y z = true -> key_less x z = true.
Proof.
  intros Nx Ny Nz. rewrite !key_less_compare.
  destruct (SFcompare_number _ _ Nx Ny) as [c1 H1].
  destruct (SFcompare_number _ _ Ny Nz) as [c2 H2].
  rewrite H1, H2.
  destruct c1; try discriminate; destruct c2; try discriminate; intros A B;
    rewrite (SFcompare_trans _ _ _ _ _ H1 H2) by discriminate; try reflexivity.
  apply Z.ltb_lt in A, B. apply Z.ltb_lt. lia.
Qed.

Lemma insert_sorted_perm x l : Permutation (insert_sorted x l) (x :: l).
Proof.
  induction l as [|h t IH]; simpl; [reflexivity|].
  destruct (key_less x h); [reflexivity|].
  eapply perm_trans; [apply perm_skip, IH|apply perm_swap].
Qed.

Lemma sorted_copy_perm l : Permutation (sorted_copy l) l.
Proof.
  induction l as [|x t IH]; simpl; [reflexivity|].
  eapply perm_trans; [apply insert_sorted_perm|apply perm_skip, IH].
Qed.

Lemma insert_sorted_sorted x l :
  is_nan (loss x) = false -> Forall (fun y => is_nan (loss y) = false) l ->
  pairwise_sorted l -> pairwise_sorted (insert_sorted x l).
Proof.
  intros Nx Nl Hl. induction Hl as [|h t Ht IH Hh]; simpl.
  - constructor; constructor.
  - inversion Nl as [|? ? Nh Nt]; subst.
    destruct (key_less x h) eqn:E.
    + constructor; [constructor; assumption|].
      constructor; [apply key_less_asym; exact E|].
      rewrite Forall_forall in *. intros b Hb.
      destruct (key_less b x) eqn:Eb; [|reflexivity].
      rewrite <- (Hh b Hb). symmetry.
      apply (key_less_trans b x h); auto.
    + constructor; [apply IH; assumption|].
      eapply Permutation_Forall; [apply Permutation_sym, insert_sorted_perm|].
      constructor; assumption.
Qed.

Lemma sorted_copy_sorted l :
  Forall (fun y => is_nan (loss y) = false) l -> pairwise_sorted (sorted_copy l).
Proof.
  induction 1 as [|x t Nx Nt IH]; simpl; [constructor|].
  apply insert_sorted_sorted; [assumption| |assumption].
  eapply Permutation_Forall; [apply Permutation_sym, sorted_copy_perm|assumption].
Qed.

Lemma slice_Swap_cons x s i j :
  slice_Swap (x :: s) (S i) (S j) = option_map (cons x) (slice_Swap s i j).
Proof.
  unfold slice_Swap. simpl.
  destruct (nth_error s i), (nth_error s j); reflexivity.
Qed.

Lemma swaps_cons x s s' : swaps s s' -> swaps (x :: s) (x :: s').
Proof.
  induction 1 as [s|s i j s1 s2 H _ IH]; [constructor|].
  eapply swaps_step; [|exact IH].
  rewrite slice_Swap_cons, H. reflexivity.
Qed.

Lemma swaps_trans s1 s2 s3 : swaps s1 s2 -> swaps s2 s3 -> swaps s1 s3.
Proof.
  induction 1; intros H'; [assumption|]. eapply swaps_step; eauto.
Qed.

(** Every permutation of a slice is reached by swaps. *)
Lemma Permutation_swaps s s' : Permutation s s' -> swaps s s'.
Proof.
  induction 1 as [|x l l' _ IH|x y l|l l' l'' _ IH1 _ IH2].
  - constructor.
  - apply swaps_cons. exact IH.
  - apply swaps_step with (i := O) (j := 1%nat) (s1 := x :: y :: l);
      [reflexivity|constructor].
  - eapply swaps_trans; eassumption.
Qed.

Lemma swaps_sort_calls s s' : swaps s s' -> sort_calls PingDelaySet_Interface s s'.
Proof.
  induction 1 as [s|s i j s1 s2 H _ IH]; [constructor|].
  eapply calls_swap; [exact H|exact IH].
Qed.

Lemma StronglySorted_nth {A : Type} (R : A -> A -> Prop) l :
  StronglySorted R l ->
  forall i j a b, (i < j)%nat ->
    nth_error l i = Some a -> nth_error l j = Some b -> R a b.
Proof.
  induction 1 as [|h t Ht IH Hh]; intros i j a b Hij Ha Hb.
  - destruct i; discriminate.
  - destruct j as [|j]; [lia|]. simpl in Hb. destruct i as [|i]; simpl in Ha.
    + injection Ha as <-. rewrite Forall_forall in Hh. apply Hh.
      eapply nth_error_In. exact Hb.
    + eapply IH; [|exact Ha|exact Hb]. lia.
Qed.

(** On well-formed records [sort.Sort] has a result: the sorted arrangement
    is reached by swaps and is in ascending order. *)
Lemma Sort_exists s :
  Forall well_formed s -> Sort PingDelaySet_Interface s (sorted_copy s).
Proof.
  intros Hs.
  assert (Hs' : Forall well_formed (sorted_copy s)).
  { eapply Permutation_Forall; [apply Permutation_sym, sorted_copy_perm|exact Hs]. }
  split.
  - apply swaps_sort_calls, Permutation_swaps, Permutation_sym, sorted_copy_perm.
  - intros i j [Hij Hj]. simpl in Hj.
    destruct (nth_error (sorted_copy s) j) as [y|] eqn:Ey;
      [|apply nth_error_None in Ey; lia].
    destruct (nth_error (sorted_copy s) i) as [x|] eqn:Ex;
      [|apply nth_error_None in Ex; lia].
    eexists. simpl.
    rewrite (PingDelaySet_Less_well_formed _ j i y x Hs' Ey Ex) by lia.
    f_equal. f_equal.
    change (key_less y x = false).
    apply (StronglySorted_nth (fun a b => key_less b a = false) (sorted_copy s))
      with (i := i) (j := j); try assumption.
    apply sorted_copy_sorted.
    eapply Forall_impl; [|exact Hs]. intros a Ha. apply well_formed_loss. exact Ha.
Qed.

Lemma checkPingDefault_PingTimes p :
  PingTimes (checkPingDefault p)
  = if PingTimes p <=? 0 then defaultPingTimes else PingTimes p.
Proof.
  destruct p as [r t n]. unfold checkPingDefault. cbn [Routines TCPPort PingTimes].
  destruct (r <=? 0); cbn [Routines TCPPort PingTimes];
    destruct ((t <=? 0) || (65535 <=? t)); cbn [Routines TCPPort PingTimes];
    destruct (n <=? 0); reflexivity.
Qed.

(** C4. [Ping.Run] returns a set, and every set it returns is ordered: of
    two records, the earlier one has the smaller loss rate, or the same
    loss rate and a delay that is not larger. *)
Theorem Run_result_ordered (p : PingVars) (completed : list Probe) :
  in_int64 (PingTimes p) ->
  (exists result, NewPing_Run p completed result) /\
  (forall result, NewPing_Run p completed result ->
   forall i j x y, (i < j)%nat ->
     nth_error result i = Some x -> nth_error result j = Some y ->
     flt (loss x) (loss y) = true \/
     (feq (loss x) (loss y) = true /\ Delay (pingData x) <= Delay (pingData y))).
Proof.
  intros Hp.
  assert (Hwf : Forall well_formed (collect (checkPingDefault p) completed)).
  { apply collect_well_formed. rewrite checkPingDefault_PingTimes.
    unfold in_int64 in Hp.
    destruct (Z.leb_spec (PingTimes p) 0); unfold defaultPingTimes; lia. }
  unfold NewPing_Run, Run. split.
  - destruct completed as [|r rest]; [exists []; reflexivity|].
    eexists. apply Sort_exists. exact Hwf.
  - intros result Hrun i j x y Hij Hx Hy.
    destruct completed as [|r rest].
    + subst result. destruct i; discriminate.
    + eapply Sort_ordered; eassumption.
Qed.

Lemma Run_result_ordered_witness :
  let result := sort_delay (collect (mkPingVars 200 443 4) sample_probes) in
  NewPing_Run (mkPingVars 200 443 4) sample_probes result /\
  map (fun x => IP (pingData x)) result = [[1;1;1;1]; [2;2;2;2]; [3;3;3;3]] /\
  (forall i j x y, (i < j)%nat ->
     nth_error result i = Some x -> nth_error result j = Some y ->
     flt (loss x) (loss y) = true \/
     (feq (loss x) (loss y) = true /\ Delay (pingData x) <= Delay (pingData y))).
Proof.
  intros result.
  assert (Hrun : NewPing_Run (mkPingVars 200 443 4) sample_probes result).
  { unfold NewPing_Run, Run. simpl. split.
    - apply insertionSort_calls. vm_compute. reflexivity.
    - intros i j [Hij Hj]. simpl in Hj.
      destruct j as [|[|[|j]]]; destruct i as [|[|[|i]]]; try lia;
        eexists; vm_compute; reflexivity. }
  split; [exact Hrun|]. split; [vm_compute; reflexivity|].
  assert (Hp : in_int64 (PingTimes (mkPingVars 200 443 4)))
    by (unfold in_int64; simpl PingTimes; lia).
  exact (proj2 (Run_result_ordered (mkPingVars 200 443 4) sample_probes Hp)
           result Hrun).
Defined.

(** * Further properties of the code *)

(** ** The loss rate: repeated reads and division by zero *)

Lemma getLossRate_twice cf : getLossRate (snd (getLossRate cf)) = getLossRate cf.
Proof.
  unfold getLossRate.
  destruct (feq (lossRate cf) fzero) eqn:E0; simpl.
  - destruct (feq (computeLossRate (pingData cf)) fzero); reflexivity.
  - rewrite E0. reflexivity.
Qed.

(** X1. Without a write between them, two calls of [getLossRate] return
    the same rate, and the second leaves the record as the first left it. *)
Theorem getLossRate_repeat_stable (cf : CloudflareIPData) :
  getLossRate (snd (getLossRate cf)) = getLossRate cf /\
  fst (getLossRate (snd (getLossRate cf))) = fst (getLossRate cf).
Proof.
  split; [apply getLossRate_twice|now rewrite getLossRate_twice].
Qed.

Lemma wrap64_range z : in_int64 (wrap64 z).
Proof.
  unfold in_int64, wrap64.
  pose proof (Z.mod_pos_bound (z + 2 ^ 63) (2 ^ 64) ltac:(lia)). lia.
Qed.

Lemma wrap64_small z : in_int64 z -> wrap64 z = z.
Proof.
  unfold in_int64, wrap64. intros H.
  rewrite Z.mod_small by lia. lia.
Qed.

Lemma wrap64_neg_nonzero r : in_int64 r -> r <> 0 -> wrap64 (0 - r) <> 0.
Proof.
  unfold in_int64, wrap64. intros Hr Hn H.
  destruct (Z.eq_dec r (- 2 ^ 63)) as [->|Hm].
  - vm_compute in H. discriminate.
  - rewrite Z.mod_small in H by lia. lia.
Qed.

(** X2. The rate of a record that has none stored: it is never NaN when
    some probe was sent; it is zero when all probes sent were received;
    with no probe sent it is NaN if none was received and infinite
    otherwise (the division by zero is not guarded). *)
Theorem getLossRate_division_cases (d : PingData) :
  in_int64 (Sended d) -> in_int64 (Received d) ->
  let rate := fst (getLossRate (newIPData d)) in
  (Sended d <> 0 -> is_nan rate = false) /\
  (Sended d <> 0 -> Received d = Sended d -> feq rate fzero = true) /\
  (Sended d = 0 -> Received d = 0 -> rate = S754_nan) /\
  (Sended d = 0 -> Received d <> 0 -> exists s, rate = S754_infinity s).
Proof.
  intros Hs Hr rate.
  assert (E : rate = computeLossRate d) by reflexivity.
  rewrite E. clear E rate. split; [|split; [|split]].
  - intros H. apply computeLossRate_number; assumption.
  - intros H Heq. unfold computeLossRate. rewrite Heq, Z.sub_diag.
    destruct (float32_of_int_finite (Sended d) H) as (s & m & e & ->).
    { unfold in_int64 in Hs. lia. }
    reflexivity.
  - intros H0 H1. unfold computeLossRate. rewrite H0, H1. reflexivity.
  - intros H0 H1. unfold computeLossRate. rewrite H0.
    destruct (float32_of_int_finite (wrap64 (0 - Received d))) as (s & m & e & ->).
    + apply wrap64_neg_nonzero; assumption.
    + pose proof (wrap64_range (0 - Received d)) as W. unfold in_int64 in W. lia.
    + exists s. simpl. destruct s; reflexivity.
Qed.

Lemma getLossRate_division_cases_witness :
  is_nan (fst (getLossRate (sample [1;1;1;1] 50 4 1))) = false /\
  fst (getLossRate (sample [1;1;1;1] 50 0 0)) = S754_nan /\
  (exists s, fst (getLossRate (sample [1;1;1;1] 50 0 3)) = S754_infinity s).
Proof.
  assert (R : forall z, -10 <= z <= 10 -> in_int64 z) by (unfold in_int64; lia).
  destruct (getLossRate_division_cases (mkPingData [1;1;1;1] 4 1 (50 * Millisecond) "")
              (R 4 ltac:(lia)) (R 1 ltac:(lia))) as (H1 & _).
  destruct (getLossRate_division_cases (mkPingData [1;1;1;1] 0 0 (50 * Millisecond) "")
              (R 0 ltac:(lia)) (R 0 ltac:(lia))) as (_ & _ & H3 & _).
  destruct (getLossRate_division_cases (mkPingData [1;1;1;1] 0 3 (50 * Millisecond) "")
              (R 0 ltac:(lia)) (R 3 ltac:(lia))) as (_ & _ & _ & H4).
  split; [apply H1; discriminate|]. split; [apply H3; reflexivity|].
  apply H4; [reflexivity|discriminate].
Defined.

(** ** The delay filter: what it returns *)

Lemma window_active_scan v s :
  window_active v -> FilterDelay v s = window_scan v s.
Proof.
  intros (H1 & H2 & H3).
  rewrite FilterDelay_proper by assumption. apply FilterDelay_loop_scan.
Qed.

Lemma takeWhile_Forall {A : Type} (f : A -> bool) l :
  Forall (fun x => f x = true) (takeWhile f l).
Proof.
  induction l as [|x t IH]; simpl; [constructor|].
  destruct (f x) eqn:E; constructor; assumption.
Qed.

Lemma takeWhile_all {A : Type} (f : A -> bool) l :
  Forall (fun x => f x = true) l -> takeWhile f l = l.
Proof.
  induction 1 as [|x t Hx _ IH]; simpl; [reflexivity|]. now rewrite Hx, IH.
Qed.

Lemma filter_all {A : Type} (f : A -> bool) l :
  Forall (fun x => f x = true) l -> filter f l = l.
Proof.
  induction 1 as [|x t Hx _ IH]; simpl; [reflexivity|]. now rewrite Hx, IH.
Qed.

Lemma filter_Forall {A : Type} (f : A -> bool) l :
  Forall (fun x => f x = true) (filter f l).
Proof.
  apply Forall_forall. intros x Hx. apply filter_In in Hx. apply Hx.
Qed.

Lemma Forall_filter_keep {A : Type} (P : A -> Prop) (f : A -> bool) l :
  Forall P l -> Forall P (filter f l).
Proof.
  intros H. apply Forall_forall. intros x Hx. apply filter_In in Hx.
  rewrite Forall_forall in H. apply H, Hx.
Qed.

Lemma takeWhile_length {A : Type} (f : A -> bool) l :
  (List.length (takeWhile f l) <= List.length l)%nat.
Proof.
  induction l as [|x t IH]; simpl; [lia|]. destruct (f x); simpl; lia.
Qed.

(** X3. When the delay filter is active, every record [FilterDelay]
    returns has its delay within the window, bounds included, and the
    result is no longer than the input. *)
Theorem FilterDelay_result_in_window (v : Vars) (s : PingDelaySet) :
  window_active v ->
  Forall (fun x => InputMinDelay v <= Delay (pingData x) <= InputMaxDelay v)
         (FilterDelay v s) /\
  (List.length (FilterDelay v s) <= List.length s)%nat.
Proof.
  intros Ha. rewrite (window_active_scan v s Ha). unfold window_scan. split.
  - pose proof (filter_Forall (fun x => InputMinDelay v <=? Delay (pingData x))
        (takeWhile (fun x => Delay (pingData x) <=? InputMaxDelay v) s)) as H1.
    pose proof (Forall_filter_keep _
        (fun x => InputMinDelay v <=? Delay (pingData x)) _
        (takeWhile_Forall (fun x => Delay (pingData x) <=? InputMaxDelay v) s)) as H2.
    rewrite Forall_forall in *. intros x Hx.
    specialize (H1 x Hx). specialize (H2 x Hx). simpl in H1, H2.
    apply Z.leb_le in H1, H2. lia.
  - eapply Nat.le_trans; [apply filter_length_le|apply takeWhile_length].
Qed.

Lemma FilterDelay_result_in_window_witness :
  Forall (fun x => 100 * Millisecond <= Delay (pingData x) <= 200 * Millisecond)
    (FilterDelay (mkVars (200 * Millisecond) (100 * Millisecond) maxLossRate false)
       three_candidates).
Proof.
  assert (Ha : window_active
                 (mkVars (200 * Millisecond) (100 * Millisecond) maxLossRate false)).
  { repeat split; try (vm_compute; discriminate).
    intros [H _]. vm_compute in H. discriminate H. }
  exact (proj1 (FilterDelay_result_in_window _ three_candidates Ha)).
Defined.

(** X4. On an input sorted by delay the active filter is exact: it returns
    the records of the input whose delay is within the window, all of
    them, in order. (The loop stops at the first record above the maximum
    because, on such an input, the records behind it are above it too.) *)
Theorem FilterDelay_sorted_exact (v : Vars) (s : PingDelaySet) :
  window_active v -> sorted_by_delay s ->
  FilterDelay v s = filter (in_window v) s.
Proof.
  intros Ha Hs. rewrite (window_active_scan v s Ha). unfold window_scan.
  rewrite (takeWhile_filter_sorted
             (fun x => Delay (pingData x) <=? InputMaxDelay v)
             (fun a b => Delay (pingData a) <= Delay (pingData b)) s).
  - clear Hs. induction s as [|x t IH]; simpl; [reflexivity|].
    unfold in_window at 1.
    destruct (Delay (pingData x) <=? InputMaxDelay v); simpl.
    + rewrite andb_true_r.
      destruct (InputMinDelay v <=? Delay (pingData x)); now rewrite IH.
    + rewrite andb_false_r. exact IH.
  - intros a b Hab Hfa. apply Z.leb_gt in Hfa. apply Z.leb_gt. lia.
  - exact Hs.
Qed.

Lemma FilterDelay_sorted_exact_witness :
  FilterDelay (mkVars (200 * Millisecond) (100 * Millisecond) maxLossRate false)
    three_candidates
  = filter (in_window (mkVars (200 * Millisecond) (100 * Millisecond) maxLossRate false))
      three_candidates.
Proof.
  apply FilterDelay_sorted_exact.
  - repeat split; try (vm_compute; discriminate).
    intros [H _]. vm_compute in H. discriminate H.
  - unfold sorted_by_delay, three_candidates.
    repeat constructor; vm_compute; discriminate.
Defined.

(** X5. [FilterDelay] is idempotent: filtering its result again changes
    nothing, whatever the window. *)
Theorem FilterDelay_idempotent (v : Vars) (s : PingDelaySet) :
  FilterDelay v (FilterDelay v s) = FilterDelay v s.
Proof.
  unfold FilterDelay.
  destruct ((maxDelay <? InputMaxDelay v) || (InputMinDelay v <? minDelay));
    [reflexivity|].
  destruct ((InputMaxDelay v =? maxDelay) && (InputMinDelay v =? minDelay));
    [reflexivity|].
  rewrite !FilterDelay_loop_scan. unfold window_scan.
  set (f := fun x : CloudflareIPData => Delay (pingData x) <=? InputMaxDelay v).
  set (g := fun x : CloudflareIPData => InputMinDelay v <=? Delay (pingData x)).
  rewrite (takeWhile_all f (filter g (takeWhile f s))).
  - apply filter_all. apply filter_Forall.
  - apply Forall_filter_keep. apply takeWhile_Forall.
Qed.

(** ** The loss rate filter: what it returns *)

Lemma loss_memo x : loss (memo x) = loss x.
Proof. unfold loss, memo. now rewrite getLossRate_twice. Qed.

Lemma memo_memo x : memo (memo x) = memo x.
Proof. unfold memo. now rewrite getLossRate_twice. Qed.

Lemma takeWhile_map {A B : Type} (g : A -> B) (f : B -> bool) l :
  takeWhile f (map g l) = map g (takeWhile (fun x => f (g x)) l).
Proof.
  induction l as [|x t IH]; simpl; [reflexivity|].
  destruct (f (g x)); simpl; [now rewrite IH|reflexivity].
Qed.

Lemma takeWhile_takeWhile {A : Type} (f : A -> bool) l :
  takeWhile f (takeWhile f l) = takeWhile f l.
Proof. apply takeWhile_all, takeWhile_Forall. Qed.

Lemma takeWhile_firstn {A : Type} (f : A -> bool) l :
  takeWhile f l = firstn (List.length (takeWhile f l)) l.
Proof.
  induction l as [|x t IH]; simpl; [reflexivity|].
  destruct (f x); simpl; [now rewrite <- IH|reflexivity].
Qed.

(** X6. Below a ceiling of 1.0, [FilterLossRate] returns a prefix of its
    input (the same probe data, in order), no record of which has a rate
    above the ceiling; and it is idempotent, whatever the ceiling. *)
Theorem FilterLossRate_prefix_idempotent (v : Vars) (s : PingDelaySet) :
  FilterLossRate v (FilterLossRate v s) = FilterLossRate v s /\
  (fge (InputMaxLossRate v) maxLossRate = false ->
   map pingData (FilterLossRate v s)
   = firstn (List.length (FilterLossRate v s)) (map pingData s) /\
   Forall (fun x => fgt (loss x) (InputMaxLossRate v) = false) (FilterLossRate v s)).
Proof.
  unfold FilterLossRate.
  destruct (fge (InputMaxLossRate v) maxLossRate) eqn:E.
  - split; [reflexivity|discriminate].
  - rewrite !FilterLossRate_loop_scan. unfold ceiling_scan.
    set (f := fun x => negb (fgt (loss x) (InputMaxLossRate v))).
    split; [|intros _; split].
    + rewrite takeWhile_map.
      rewrite (takeWhile_ext_Forall (fun x => f (memo x)) f (fun _ => True)).
      * rewrite takeWhile_takeWhile, map_map.
        apply map_ext. intros x. apply memo_memo.
      * intros x _. unfold f. now rewrite loss_memo.
      * apply Forall_forall. trivial.
    + rewrite map_pingData_memo, length_map.
      rewrite (takeWhile_firstn f s) at 1. now rewrite firstn_map.
    + apply Forall_forall. intros y Hy. apply in_map_iff in Hy.
      destruct Hy as (x & <- & Hx). rewrite loss_memo.
      pose proof (takeWhile_Forall f s) as HF. rewrite Forall_forall in HF.
      specialize (HF x Hx). unfold f in HF. now apply negb_true_iff in HF.
Qed.

(** ** The two orders and the swap *)

Lemma SFcompare_refl x : is_nan x = false -> SFcompare x x = Some Eq.
Proof.
  destruct x as [s|s| |s m e]; simpl; intros H; try discriminate;
    try (destruct s; reflexivity).
  destruct s; rewrite Z.compare_refl, ?Pos.compare_cont_refl, ?Pos.compare_refl;
    reflexivity.
Qed.

Lemma nth_error_set_nth_same {A : Type} (l : list A) : forall i x,
  (i < List.length l)%nat -> nth_error (set_nth i x l) i = Some x.
Proof.
  induction l as [|h t IH]; intros [|i] x Hi; simpl in *; try lia; try reflexivity.
  apply IH. lia.
Qed.

Lemma less_of_well_formed s i j x y :
  Forall well_formed s ->
  nth_error s i = Some x -> nth_error s j = Some y -> i <> j ->
  less_of s i j = Some (key_less x y).
Proof.
  intros Hs Hx Hy Hij. unfold less_of.
  rewrite (PingDelaySet_Less_well_formed s i j x y Hs Hx Hy Hij). reflexivity.
Qed.

Lemma less_of_same s i x :
  Forall well_formed s -> nth_error s i = Some x -> less_of s i i = Some false.
Proof.
  intros Hs Hx. unfold less_of, PingDelaySet_Less. rewrite Hx.
  pose proof (nth_error_Forall _ _ _ _ Hs Hx) as Hw.
  rewrite (getLossRate_cache_ok x (proj1 Hw)).
  rewrite nth_error_set_nth_same
    by (apply nth_error_Some; rewrite Hx; discriminate).
  set (x' := set_lossRate (computeLossRate (pingData x)) x).
  assert (Hw' : well_formed x') by (apply well_formed_memo; exact Hw).
  rewrite (getLossRate_cache_ok x' (proj1 Hw')). simpl.
  assert (Hn : is_nan (computeLossRate (pingData x)) = false)
    by (apply computeLossRate_number; apply Hw).
  unfold fne, feq, SFeqb. rewrite (SFcompare_refl _ Hn). simpl.
  now rewrite Z.ltb_irrefl.
Qed.

Lemma key_less_ties x y :
  is_nan (loss x) = false -> is_nan (loss y) = false ->
  key_less x y = false -> key_less y x = false ->
  feq (loss x) (loss y) = true /\ Delay (pingData x) = Delay (pingData y).
Proof.
  intros Hx Hy. rewrite !key_less_compare.
  rewrite (SFcompare_swap (loss x) (loss y)).
  destruct (SFcompare_number _ _ Hx Hy) as [c Hc].
  unfold feq, SFeqb. rewrite Hc. simpl.
  destruct c; simpl; try discriminate.
  intros H1 H2. apply Z.ltb_ge in H1, H2. split; [reflexivity|lia].
Qed.

(** X7. On records built by the probe run, [PingDelaySet.Less] is a strict
    weak order, which is what [sort.Sort] needs: no record is less than
    itself; of two records at most one is less than the other; the order is
    transitive; and two records neither of which is less than the other
    have equal loss rates and equal delays. *)
Theorem PingDelaySet_Less_strict_weak_order
  (s : PingDelaySet) (i j k : nat) (x y z : CloudflareIPData) :
  Forall well_formed s ->
  nth_error s i = Some x -> nth_error s j = Some y -> nth_error s k = Some z ->
  i <> j -> j <> k -> i <> k ->
  less_of s i i = Some false /\
  (less_of s i j = Some true -> less_of s j i = Some false) /\
  (less_of s i j = Some true -> less_of s j k = Some true ->
   less_of s i k = Some true) /\
  (less_of s i j = Some false -> less_of s j i = Some false ->
   feq (loss x) (loss y) = true /\ Delay (pingData x) = Delay (pingData y)).
Proof.
  intros Hs Hx Hy Hz Hij Hjk Hik.
  assert (Nx : is_nan (loss x) = false)
    by (apply well_formed_loss, (nth_error_Forall _ _ _ _ Hs Hx)).
  assert (Ny : is_nan (loss y) = false)
    by (apply well_formed_loss, (nth_error_Forall _ _ _ _ Hs Hy)).
  assert (Nz : is_nan (loss z) = false)
    by (apply well_formed_loss, (nth_error_Forall _ _ _ _ Hs Hz)).
  rewrite (less_of_same s i x Hs Hx).
  rewrite (less_of_well_formed s i j x y Hs Hx Hy Hij).
  rewrite (less_of_well_formed s j i y x Hs Hy Hx (not_eq_sym Hij)).
  rewrite (less_of_well_formed s j k y z Hs Hy Hz Hjk).
  rewrite (less_of_well_formed s i k x z Hs Hx Hz Hik).
  split; [reflexivity|]. split; [|split].
  - intros H. injection H as H. now rewrite (key_less_asym x y H).
  - intros H1 H2. injection H1 as H1. injection H2 as H2.
    now rewrite (key_less_trans x y z Nx Ny Nz H1 H2).
  - intros H1 H2. injection H1 as H1. injection H2 as H2.
    apply key_less_ties; assumption.
Qed.

Lemma PingDelaySet_Less_strict_weak_order_witness :
  let s := collect (mkPingVars 200 443 4) sample_probes in
  less_of s 0 0 = Some false /\
  (less_of s 0 1 = Some true -> less_of s 1 0 = Some false).
Proof.
  intros s.
  assert (Hs : Forall well_formed s)
    by (apply collect_well_formed; simpl PingTimes; lia).
  destruct (PingDelaySet_Less_strict_weak_order s 0 1 2
              (record_of (mkPingVars 200 443 4)
                 (mkProbe [3;3;3;3] 2 (200 * Millisecond) ""))
              (record_of (mkPingVars 200 443 4)
                 (mkProbe [1;1;1;1] 4 (200 * Millisecond) ""))
              (record_of (mkPingVars 200 443 4)
                 (mkProbe [2;2;2;2] 4 (800 * Millisecond) ""))
              Hs eq_refl eq_refl eq_refl
              ltac:(discriminate) ltac:(discriminate) ltac:(discriminate))
    as (H1 & H2 & _).
  split; assumption.
Defined.

Lemma set_nth_length {A : Type} (l : list A) : forall i x,
  List.length (set_nth i x l) = List.length l.
Proof.
  induction l as [|h t IH]; intros [|i] x; simpl; try reflexivity.
  now rewrite IH.
Qed.

Lemma nth_error_set_nth {A : Type} (l : list A) i x n :
  (i < List.length l)%nat ->
  nth_error (set_nth i x l) n = if Nat.eqb n i then Some x else nth_error l n.
Proof.
  intros Hi. destruct (Nat.eqb_spec n i) as [->|Hn].
  - apply nth_error_set_nth_same. exact Hi.
  - apply nth_error_set_nth_other. exact Hn.
Qed.

Lemma nth_error_eq_ext {A : Type} : forall l1 l2 : list A,
  (forall n, nth_error l1 n = nth_error l2 n) -> l1 = l2.
Proof.
  induction l1 as [|a t IH]; intros [|b u] H.
  - reflexivity.
  - specialize (H O). discriminate.
  - specialize (H O). discriminate.
  - pose proof (H O) as H0. simpl in H0. injection H0 as ->.
    f_equal. apply IH. intros n. exact (H (S n)).
Qed.

(** X8. [Swap] exchanges the two elements and nothing else: the length and
    every other element are kept; swapping again restores the slice; the
    order of the two indexes does not matter; and it panics exactly when an
    index is out of range. *)
Theorem slice_Swap_exchange (s : list CloudflareIPData) (i j : nat) :
  (forall s1, slice_Swap s i j = Some s1 ->
     List.length s1 = List.length s /\
     nth_error s1 i = nth_error s j /\ nth_error s1 j = nth_error s i /\
     (forall n, n <> i -> n <> j -> nth_error s1 n = nth_error s n) /\
     slice_Swap s1 i j = Some s /\ slice_Swap s j i = Some s1) /\
  (slice_Swap s i j = None <-> (List.length s <= i \/ List.length s <= j)%nat).
Proof.
  split.
  - intros s1 H. unfold slice_Swap in H.
    destruct (nth_error s i) as [x|] eqn:Ex; [|discriminate].
    destruct (nth_error s j) as [y|] eqn:Ey; [|discriminate].
    injection H as <-.
    assert (Hi : (i < List.length s)%nat)
      by (apply nth_error_Some; rewrite Ex; discriminate).
    assert (Hj : (j < List.length s)%nat)
      by (apply nth_error_Some; rewrite Ey; discriminate).
    assert (Hj' : (j < List.length (set_nth i y s))%nat)
      by (rewrite set_nth_length; exact Hj).
    assert (Hi' : (i < List.length (set_nth j x s))%nat)
      by (rewrite set_nth_length; exact Hi).
    assert (Hn : forall n, nth_error (set_nth j x (set_nth i y s)) n
                 = if Nat.eqb n j then Some x
                   else if Nat.eqb n i then Some y else nth_error s n).
    { intros n. rewrite (nth_error_set_nth _ j x n Hj').
      destruct (Nat.eqb n j); [reflexivity|]. apply nth_error_set_nth, Hi. }
    assert (E1 : nth_error (set_nth j x (set_nth i y s)) i = Some y).
    { rewrite Hn. destruct (Nat.eqb_spec i j) as [->|_].
      - congruence.
      - now rewrite Nat.eqb_refl. }
    assert (E2 : nth_error (set_nth j x (set_nth i y s)) j = Some x)
      by (rewrite Hn; now rewrite Nat.eqb_refl).
    split; [now rewrite !set_nth_length|].
    split; [congruence|]. split; [congruence|]. split; [|split].
    + intros n Hni Hnj. rewrite Hn.
      destruct (Nat.eqb_spec n j); [contradiction|].
      destruct (Nat.eqb_spec n i); [contradiction|reflexivity].
    + unfold slice_Swap. rewrite E1, E2. f_equal.
      apply nth_error_eq_ext. intros n.
      rewrite nth_error_set_nth by (rewrite !set_nth_length; exact Hj).
      rewrite nth_error_set_nth by (rewrite !set_nth_length; exact Hi).
      rewrite Hn.
      destruct (Nat.eqb_spec n j) as [->|Hnj]; [now rewrite Ey|].
      destruct (Nat.eqb_spec n i) as [->|Hni]; [now rewrite Ex|reflexivity].
    + unfold slice_Swap. rewrite Ex, Ey. f_equal.
      apply nth_error_eq_ext. intros n.
      rewrite Hn.
      rewrite (nth_error_set_nth _ i y n) by (rewrite set_nth_length; exact Hi).
      rewrite (nth_error_set_nth _ j x n Hj).
      destruct (Nat.eqb_spec n j) as [Enj|Hnj];
        destruct (Nat.eqb_spec n i) as [Eni|Hni]; try reflexivity.
      subst. congruence.
  - unfold slice_Swap. split.
    + intros H.
      destruct (nth_error s i) as [x|] eqn:Ex.
      * destruct (nth_error s j) as [y|] eqn:Ey; [discriminate|].
        right. apply nth_error_None. exact Ey.
      * left. apply nth_error_None. exact Ex.
    + intros [H|H]; apply nth_error_None in H; rewrite H; [reflexivity|].
      destruct (nth_error s i); reflexivity.
Qed.











(** ** The probe run: parameters, attempts and records *)

Lemma checkPingDefault_eq p :
  checkPingDefault p
  = mkPingVars (if Routines p <=? 0 then defaultRoutines else Routines p)
      (if (TCPPort p <=? 0) || (65535 <=? TCPPort p) then defaultPort else TCPPort p)
      (if PingTimes p <=? 0 then defaultPingTimes else PingTimes p).
Proof.
  destruct p as [r t n]. unfold checkPingDefault. cbn [Routines TCPPort PingTimes].
  destruct (r <=? 0); cbn [Routines TCPPort PingTimes];
    destruct ((t <=? 0) || (65535 <=? t)); cbn [Routines TCPPort PingTimes];
    destruct (n <=? 0); reflexivity.
Qed.

(** X10. [checkPingDefault] leaves a configuration unchanged exactly when
    the number of routines and of probes are positive and the port is
    between 1 and 65534; and checking twice is checking once. *)
Theorem checkPingDefault_fixpoint (p : PingVars) :
  (checkPingDefault p = p <->
   0 < Routines p /\ 0 < TCPPort p < 65535 /\ 0 < PingTimes p) /\
  checkPingDefault (checkPingDefault p) = checkPingDefault p.
Proof.
  split.
  - rewrite checkPingDefault_eq. destruct p as [r t n].
    cbn [Routines TCPPort PingTimes].
    unfold defaultRoutines, defaultPort, defaultPingTimes.
    destruct (Z.leb_spec r 0) as [Hr|Hr];
      destruct (Z.leb_spec t 0) as [Ht|Ht];
      destruct (Z.leb_spec 65535 t) as [Ht'|Ht'];
      destruct (Z.leb_spec n 0) as [Hn|Hn]; cbn [orb];
      (split; [intros E; try (injection E; intros); lia
              |intros (H1 & H2 & H3); try lia; reflexivity]).
  - rewrite !checkPingDefault_eq. destruct p as [r t n].
    cbn [Routines TCPPort PingTimes].
    unfold defaultRoutines, defaultPort, defaultPingTimes.
    f_equal.
    + destruct (Z.leb_spec r 0) as [Hr|Hr]; [reflexivity|].
      destruct (Z.leb_spec r 0); [lia|reflexivity].
    + destruct (Z.leb_spec t 0) as [Ht|Ht];
        destruct (Z.leb_spec 65535 t) as [Ht'|Ht']; cbn [orb]; try reflexivity.
      destruct (Z.leb_spec t 0); [lia|].
      destruct (Z.leb_spec 65535 t); [lia|reflexivity].
    + destruct (Z.leb_spec n 0) as [Hn|Hn]; [reflexivity|].
      destruct (Z.leb_spec n 0); [lia|reflexivity].
Qed.

Lemma tcpingHandler_record p csv r :
  tcpingHandler p csv r = csv ++ (if answered r then [record_of p r] else []).
Proof.
  unfold tcpingHandler, answered, record_of.
  destruct (probe_recv r =? 0); simpl; [now rewrite app_nil_r|reflexivity].
Qed.

Lemma collect_from p completed : forall csv,
  fold_left (tcpingHandler p) completed csv
  = csv ++ map (record_of p) (filter answered completed).
Proof.
  induction completed as [|r rest IH]; intros csv; simpl.
  - now rewrite app_nil_r.
  - rewrite IH, tcpingHandler_record.
    destruct (answered r); simpl; [now rewrite <- app_assoc|now rewrite app_nil_r].
Qed.

Lemma map_pingData_set_nth s : forall i x x',
  nth_error s i = Some x -> pingData x' = pingData x ->
  map pingData (set_nth i x' s) = map pingData s.
Proof.
  induction s as [|h t IH]; intros [|i] x x' Hx Hp; simpl in *; try discriminate.
  - injection Hx as ->. now rewrite Hp.
  - f_equal. eapply IH; eassumption.
Qed.

Lemma PingDelaySet_Less_pingData s i j b s' :
  PingDelaySet_Less s i j = Some (b, s') -> map pingData s' = map pingData s.
Proof.
  unfold PingDelaySet_Less.
  destruct (nth_error s i) as [x|] eqn:Ex; [|discriminate].
  destruct (getLossRate x) as [iRate x'] eqn:Gx.
  destruct (nth_error (set_nth i x' s) j) as [y|] eqn:Ey; [|discriminate].
  destruct (getLossRate y) as [jRate y'] eqn:Gy.
  intros H. injection H as _ <-.
  rewrite (map_pingData_set_nth _ j y y' Ey).
  - apply (map_pingData_set_nth _ i x x' Ex).
    replace x' with (snd (getLossRate x)) by now rewrite Gx.
    apply getLossRate_pingData.
  - replace y' with (snd (getLossRate y)) by now rewrite Gy.
    apply getLossRate_pingData.
Qed.

Lemma sort_calls_pingData s s' :
  sort_calls PingDelaySet_Interface s s' ->
  Permutation (map pingData s') (map pingData s).
Proof.
  induction 1 as [s|s i j b s1 s2 H _ IH|s i j s1 s2 H _ IH].
  - reflexivity.
  - simpl in H. rewrite IH. now rewrite (PingDelaySet_Less_pingData _ _ _ _ _ H).
  - simpl in H. rewrite IH. apply Permutation_map.
    eapply slice_Swap_perm. exact H.
Qed.

(** X11. The accumulator of the probe run holds one record for each
    address that answered, in the order of completion, and none for the
    others; [Run] returns these records rearranged: the probe data of its
    result is that of the addresses that answered, each with [PingTimes]
    probes sent and at least one received. *)
Theorem Run_result_records (p : PingVars) (completed : list Probe)
  (result : PingDelaySet) :
  Run p completed result ->
  collect p completed = map (record_of p) (filter answered completed) /\
  Permutation (map pingData result)
    (map (fun r => pingData (record_of p r)) (filter answered completed)) /\
  List.length result = List.length (filter answered completed) /\
  Forall (fun x => Sended (pingData x) = PingTimes p /\ Received (pingData x) <> 0)
    result.
Proof.
  intros Hrun.
  assert (Hc : collect p completed = map (record_of p) (filter answered completed))
    by (unfold collect; now rewrite collect_from).
  assert (Hp : Permutation (map pingData result)
                 (map (fun r => pingData (record_of p r)) (filter answered completed))).
  { unfold Run in Hrun. destruct completed as [|r rest].
    - subst result. reflexivity.
    - destruct Hrun as [Hcalls _]. rewrite (sort_calls_pingData _ _ Hcalls).
      rewrite Hc, map_map. reflexivity. }
  split; [exact Hc|]. split; [exact Hp|]. split.
  - rewrite <- (length_map pingData result), (Permutation_length Hp).
    now rewrite length_map.
  - assert (HF : Forall (fun d => Sended d = PingTimes p /\ Received d <> 0)
                   (map pingData result)).
    { eapply Permutation_Forall; [apply Permutation_sym, Hp|].
      apply Forall_forall. intros d Hd. apply in_map_iff in Hd.
      destruct Hd as (r & <- & Hr). apply filter_In in Hr. destruct Hr as [_ Hr].
      unfold answered in Hr. apply negb_true_iff, Z.eqb_neq in Hr.
      split; [reflexivity|exact Hr]. }
    rewrite Forall_forall in *. intros x Hx. apply HF. now apply in_map.
Qed.

Lemma Run_result_records_witness :
  let result := sort_delay (collect (mkPingVars 200 443 4) sample_probes) in
  List.length result = 3%nat /\
  Forall (fun x => Sended (pingData x) = 4 /\ Received (pingData x) <> 0) result.
Proof.
  intros result.
  assert (Hrun : Run (mkPingVars 200 443 4) sample_probes result).
  { unfold Run. simpl. split.
    - apply insertionSort_calls. vm_compute. reflexivity.
    - intros i j [Hij Hj]. simpl in Hj.
      destruct j as [|[|[|j]]]; destruct i as [|[|[|i]]]; try lia;
        eexists; vm_compute; reflexivity. }
  destruct (Run_result_records (mkPingVars 200 443 4) sample_probes result Hrun)
    as (_ & _ & H3 & H4).
  split; [exact H3|exact H4].
Defined.

Lemma wrap64_add_l a b : wrap64 (wrap64 a + b) = wrap64 (a + b).
Proof.
  unfold wrap64. f_equal.
  replace ((a + 2 ^ 63) mod 2 ^ 64 - 2 ^ 63 + b + 2 ^ 63)
    with ((a + 2 ^ 63) mod 2 ^ 64 + b) by lia.
  rewrite Z.add_mod_idemp_l by lia. f_equal. lia.
Qed.

Lemma successes_le i n tcping : (successes i n tcping <= n)%nat.
Proof.
  unfold successes.
  eapply Nat.le_trans; [apply filter_length_le|]. now rewrite length_seq.
Qed.

Lemma checkConnection_loop_closed tcping : forall n i recv totalDelay,
  0 <= recv -> recv + Z.of_nat n < 2 ^ 63 ->
  checkConnection_loop n i tcping recv totalDelay
  = (recv + Z.of_nat (successes i n tcping),
     if (successes i n tcping =? 0)%nat then totalDelay
     else wrap64 (totalDelay + connect_time i n tcping)).
Proof.
  induction n as [|n IH]; intros i recv totalDelay H0 Hn.
  - simpl. f_equal. lia.
  - cbn [checkConnection_loop]. unfold successes, connect_time.
    cbn [seq filter fold_right].
    destruct (tcping i) as [ok delay] eqn:E. cbn [fst snd].
    destruct ok; cbn [List.length];
      fold (successes (S i) n tcping); fold (connect_time (S i) n tcping).
    + assert (W : wrap64 (recv + 1) = recv + 1)
        by (apply wrap64_small; unfold in_int64; lia).
      rewrite W, IH by lia.
      f_equal; [lia|].
      replace (S (successes (S i) n tcping) =? 0)%nat with false by reflexivity.
      destruct (successes (S i) n tcping =? 0)%nat eqn:Z0.
      * apply Nat.eqb_eq in Z0. unfold successes in Z0.
        apply length_zero_iff_nil in Z0.
        assert (C0 : connect_time (S i) n tcping = 0).
        { unfold connect_time. revert Z0. generalize (seq (S i) n).
          induction l as [|a l IHl]; simpl; [reflexivity|].
          destruct (fst (tcping a)); [discriminate|exact IHl]. }
        rewrite C0. f_equal. lia.
      * rewrite wrap64_add_l. f_equal. lia.
    + rewrite IH by lia. reflexivity.
Qed.

(** X12. In TCP mode [checkConnection] makes [PingTimes] attempts: it
    returns the number of those that succeeded, which is at most
    [PingTimes], the sum of their connect times, and no location tag (with
    no success the sum is zero). [tcpingHandler] then leaves no record when
    no attempt succeeded, and otherwise one record whose count of probes
    received is positive and no more than the count sent. *)
Theorem checkConnection_tcp (p : PingVars) (ip : IPAddr)
  (tcping : nat -> bool * Z) (csv : PingDelaySet) :
  in_int64 (PingTimes p) ->
  let n := Z.to_nat (PingTimes p) in
  let r := tcp_probe p ip tcping in
  probe_recv r = Z.of_nat (successes 0 n tcping) /\
  probe_totalDelay r
  = (if (successes 0 n tcping =? 0)%nat then 0
     else wrap64 (connect_time 0 n tcping)) /\
  probe_colo r = EmptyString /\
  0 <= probe_recv r <= Z.max 0 (PingTimes p) /\
  (successes 0 n tcping = 0%nat -> tcpingHandler p csv r = csv) /\
  (successes 0 n tcping <> 0%nat ->
   exists x, tcpingHandler p csv r = csv ++ [x] /\
     IP (pingData x) = ip /\ Sended (pingData x) = PingTimes p /\
     0 < Received (pingData x) <= Sended (pingData x)).
Proof.
  intros Hp n r.
  assert (E : r = mkProbe ip (Z.of_nat (successes 0 n tcping))
                    (if (successes 0 n tcping =? 0)%nat then 0
                     else wrap64 (connect_time 0 n tcping)) EmptyString).
  { unfold r, tcp_probe, checkConnection. fold n.
    rewrite checkConnection_loop_closed.
    - reflexivity.
    - lia.
    - unfold in_int64 in Hp. unfold n. lia. }
  pose proof (successes_le 0 n tcping) as Hle.
  rewrite E. cbn [probe_recv probe_totalDelay probe_colo].
  split; [reflexivity|]. split; [reflexivity|]. split; [reflexivity|].
  split; [unfold n in *; lia|]. split.
  - intros H0. unfold tcpingHandler. cbn [probe_recv]. now rewrite H0.
  - intros H0. unfold tcpingHandler. cbn [probe_recv probe_ip probe_colo].
    destruct (Z.eqb_spec (Z.of_nat (successes 0 n tcping)) 0) as [Hz|Hz]; [lia|].
    eexists. split; [reflexivity|]. cbn [pingData newIPData IP Sended Received].
    split; [reflexivity|]. split; [reflexivity|]. unfold n in *. lia.
Qed.

Lemma checkConnection_tcp_witness :
  let p := mkPingVars 200 443 4 in
  let tcping := fun i : nat => (Nat.even i, 30 * Millisecond) in
  probe_recv (tcp_probe p [1;1;1;1] tcping) = 2 /\
  probe_totalDelay (tcp_probe p [1;1;1;1] tcping) = 60 * Millisecond.
Proof.
  intros p tcping.
  assert (Hp : in_int64 (PingTimes p)) by (unfold in_int64; simpl PingTimes; lia).
  destruct (checkConnection_tcp p [1;1;1;1] tcping [] Hp) as (H1 & H2 & _).
  split; [exact H1|exact H2].
Defined.

(** ** The range expander: masks, ranges and the loops *)

Lemma IndexByte_lower s c : -1 <= IndexByte s c.
Proof.
  induction s as [|a s IH]; simpl; [lia|].
  destruct (Ascii.eqb a c); [lia|].
  destruct (Z.ltb_spec (IndexByte s c) 0); lia.
Qed.

Lemma IndexByte_split s c :
  0 <= IndexByte s c ->
  exists pre post, s = (pre ++ String c post)%string /\
    IndexByte pre c < 0 /\ IndexByte s c = Z.of_nat (String.length pre).
Proof.
  induction s as [|a s IH]; simpl; intros H; [lia|].
  destruct (Ascii.eqb_spec a c) as [->|Hac].
  - exists EmptyString, s. simpl. repeat split; lia.
  - destruct (Z.ltb_spec (IndexByte s c) 0) as [Hlt|Hge]; [lia|].
    destruct (IH Hge) as (pre & post & -> & Hpre & Hi).
    exists (String a pre), post. simpl.
    destruct (Ascii.eqb_spec a c) as [E|_]; [contradiction|].
    replace (IndexByte pre c <? 0) with true by (symmetry; apply Z.ltb_lt; lia).
    repeat split; lia.
Qed.

(** X13. Whatever the specification, [fixIP] returns one that has a mask:
    it is a part without a slash followed by the mask recorded in the
    receiver, which begins with a slash. Only the mask of the receiver
    changes, and a specification [fixIP] returned is returned unchanged
    with the same mask recorded. *)
Theorem fixIP_has_mask (r r2 : IPRanges) (spec : string) :
  let fixed := fst (fixIP r spec) in
  let m := mask (snd (fixIP r spec)) in
  (exists pre post, fixed = (pre ++ m)%string /\ m = String "/" post /\
     IndexByte pre "/" < 0) /\
  snd (fixIP r spec) = set_mask m r /\
  fixIP r2 fixed = (fixed, set_mask m r2).
Proof.
  intros fixed m. unfold fixed, m. clear fixed m.
  destruct (Z.ltb_spec (IndexByte spec "/") 0) as [Hlt|Hge].
  - rewrite (fixIP_unmasked r spec Hlt). cbn [fst snd set_mask mask].
    split; [|split; [reflexivity|apply fixIP_masked; exact Hlt]].
    exists spec. unfold single_mask.
    destruct (isIPv4 spec); eexists; (split; [reflexivity|split; [reflexivity|exact Hlt]]).
  - destruct (IndexByte_split spec "/" Hge) as (pre & post & E & Hpre & Hi).
    assert (F : forall r0, fixIP r0 spec = (spec, set_mask (String "/" post) r0)).
    { intros r0. unfold fixIP.
      replace (IndexByte spec "/" <? 0) with false by (symmetry; apply Z.ltb_ge; lia).
      rewrite Hi, Nat2Z.id. rewrite E at 2. now rewrite suffix_from_app. }
    rewrite (F r). cbn [fst snd set_mask mask].
    split; [|split; [reflexivity|apply F]].
    exists pre, post. auto.
Qed.

Lemma getIPRange_bytes r :
  getIPRange r
  = getIPRange (mkIPRanges [] EmptyString (IPv4 0 0 0 (byte_at (firstIP r) 15))
                  (mkIPNet [] (net_Mask (ipNet r)))).
Proof. reflexivity. Qed.

Lemma getIPRange_checked :
  forallb (fun n =>
    forallb (fun b =>
      let r := mkIPRanges [] EmptyString (IPv4 0 0 0 (Z.of_nat b))
                 (mkIPNet [] (CIDRMask32 (Z.of_nat n))) in
      let minIP := fst (getIPRange r) in
      let hosts := snd (getIPRange r) in
      (hosts =? Z.min (2 ^ (32 - Z.of_nat n) - 1) 255)
      && (minIP =? Z.of_nat b - Z.of_nat b mod (hosts + 1))
      && (0 <=? minIP) && (minIP + hosts <=? 255))
    (seq 0 256)) (seq 0 33) = true.
Proof. vm_compute. reflexivity. Qed.

(** X14. On a network whose mask has [ones] leading one bits,
    [getIPRange] returns as number of hosts the size of the block of the
    last byte less one, at most 255, and as least last byte the start of
    the block that holds the last byte of the address; the least byte plus
    the number of hosts is at most 255, so the byte additions of
    [chooseIPv4] never wrap around. *)
Theorem getIPRange_CIDR (r : IPRanges) (ones : Z) :
  0 <= ones <= 32 -> 0 <= byte_at (firstIP r) 15 < 256 ->
  net_Mask (ipNet r) = CIDRMask32 ones ->
  let b := byte_at (firstIP r) 15 in
  let minIP := fst (getIPRange r) in
  let hosts := snd (getIPRange r) in
  hosts = Z.min (2 ^ (32 - ones) - 1) 255 /\
  minIP = b - b mod (hosts + 1) /\
  minIP <= b <= minIP + hosts /\ 0 <= minIP /\ minIP + hosts <= 255.
Proof.
  intros Hn Hb Hm b minIP hosts.
  pose proof getIPRange_checked as C.
  rewrite forallb_forall in C.
  specialize (C (Z.to_nat ones)). rewrite forallb_forall in C.
  assert (In (Z.to_nat ones) (seq 0 33)) as I1 by (apply in_seq; lia).
  assert (In (Z.to_nat b) (seq 0 256)) as I2 by (apply in_seq; unfold b; lia).
  specialize (C I1 (Z.to_nat b) I2). cbv zeta in C.
  rewrite !Z2Nat.id in C by (unfold b; lia).
  rewrite <- Hm in C. unfold b in C. rewrite <- !getIPRange_bytes in C.
  fold b minIP hosts in C.
  apply andb_true_iff in C. destruct C as [C C4].
  apply andb_true_iff in C. destruct C as [C C3].
  apply andb_true_iff in C. destruct C as [C1 C2].
  apply Z.eqb_eq in C1, C2. apply Z.leb_le in C3, C4.
  split; [exact C1|]. split; [exact C2|].
  assert (0 <= hosts) by (rewrite C1; apply Z.min_glb; [|lia];
    pose proof (Z.pow_pos_nonneg 2 (32 - ones)); lia).
  pose proof (Z.mod_pos_bound b (hosts + 1) ltac:(lia)).
  lia.
Qed.

Lemma getIPRange_CIDR_witness :
  getIPRange (mkIPRanges [] "/26" (IPv4 1 2 3 77)
                (mkIPNet [1; 2; 3; 64] (CIDRMask32 26))) = (64, 63).
Proof.
  pose proof (getIPRange_CIDR
                (mkIPRanges [] "/26" (IPv4 1 2 3 77)
                   (mkIPNet [1; 2; 3; 64] (CIDRMask32 26))) 26
                ltac:(lia) ltac:(cbv [byte_at firstIP IPv4 nth]; lia) eq_refl) as H.
  cbv zeta in H. destruct H as (H1 & H2 & _).
  rewrite (surjective_pairing (getIPRange _)). rewrite H2, H1. reflexivity.
Defined.




Lemma IPRanges_eta r :
  mkIPRanges (ips r ++ []) (mask r) (firstIP r) (ipNet r) = r.
Proof. destruct r. simpl. now rewrite app_nil_r. Qed.


Lemma appendAll_closed minIP : forall n i r,
  appendAll n (Z.of_nat i) minIP r
  = mkIPRanges
      (ips r ++ map (fun j => in_block (firstIP r) ((Z.of_nat j mod 256 + minIP) mod 256))
                    (seq i n))
      (mask r) (firstIP r) (ipNet r).
Proof.
  induction n as [|n IH]; intros i r.
  - cbn [appendAll seq map]. now rewrite IPRanges_eta.
  - cbn [appendAll seq map].
    replace (Z.of_nat i + 1) with (Z.of_nat (S i)) by lia.
    rewrite IH. cbn [ips mask firstIP ipNet appendIPv4 appendIP].
    rewrite <- app_assoc. reflexivity.
Qed.


Lemma chooseIPv4_ranged NetContains rand_source TestAll fuel r k :
  mask r <> "/32"%string ->
  chooseIPv4 NetContains rand_source TestAll fuel r k
  = chooseIPv4_loop NetContains rand_source TestAll fuel
      (fst (getIPRange r)) (snd (getIPRange r)) r k.
Proof.
  intros Hm. unfold chooseIPv4.
  destruct (String.eqb_spec (mask r) "/32") as [E|_]; [contradiction|].
  now destruct (getIPRange r).
Qed.





Lemma appendAll_ipNet minIP n r : ipNet (appendAll n 0 minIP r) = ipNet r.
Proof. change 0 with (Z.of_nat 0). now rewrite appendAll_closed. Qed.

Lemma chooseIPv4_loop_whole NetContains rand_source TestAll minIP hosts :
  forall fuel r k,
  (forall a, NetContains (ipNet r) a = true) ->
  chooseIPv4_loop NetContains rand_source TestAll fuel minIP hosts r k = None.
Proof.
  induction fuel as [|fuel IH]; intros r k H; cbn [chooseIPv4_loop]; rewrite H;
    [reflexivity|].
  destruct TestAll.
  - apply IH. cbn [ipNet set_firstIP]. now rewrite appendAll_ipNet.
  - destruct (randIPEndWith rand_source k hosts) as [v k'].
    apply IH. exact H.
Qed.

Lemma chooseIPv6_loop_whole NetContains rand_source :
  forall fuel r k,
  (forall a, NetContains (ipNet r) a = true) ->
  chooseIPv6_loop NetContains rand_source fuel r k = None.
Proof.
  induction fuel as [|fuel IH]; intros r k H; cbn [chooseIPv6_loop]; rewrite H;
    [reflexivity|].
  destruct (randIPEndWith rand_source k 255) as [v15 k1].
  destruct (randIPEndWith rand_source k1 255) as [v14 k2].
  destruct (climb rand_source 14 _ k2) as [a' k3].
  apply IH. exact H.
Qed.

(** X17. On a network that holds every address (such as 0.0.0.0/0 or
    ::/0) neither [chooseIPv4] nor [chooseIPv6] returns: the cursor wraps
    around and never leaves the network, whatever the random numbers. *)
Theorem choose_whole_space_never_returns
  (NetContains : IPNet -> IPAddr -> bool) (rand_source : nat -> Z)
  (TestAll : bool) (r : IPRanges) :
  (forall a, NetContains (ipNet r) a = true) ->
  (mask r <> "/32"%string ->
   forall fuel k, chooseIPv4 NetContains rand_source TestAll fuel r k = None) /\
  (mask r <> "/128"%string ->
   forall fuel k, chooseIPv6 NetContains rand_source fuel r k = None).
Proof.
  intros H. split; intros Hm fuel k.
  - rewrite (chooseIPv4_ranged _ _ _ _ _ _ Hm).
    apply chooseIPv4_loop_whole. exact H.
  - unfold chooseIPv6.
    destruct (String.eqb_spec (mask r) "/128") as [E|_]; [contradiction|].
    apply chooseIPv6_loop_whole. exact H.
Qed.

Lemma choose_whole_space_never_returns_witness :
  chooseIPv4 (fun _ _ => true) (fun i => Z.of_nat i) false 50
    (mkIPRanges [] "/0" (IPv4 0 0 0 0) (mkIPNet [0; 0; 0; 0] [0; 0; 0; 0])) 0
  = None.
Proof.
  assert (Hm : mask (mkIPRanges [] "/0" (IPv4 0 0 0 0)
                       (mkIPNet [0; 0; 0; 0] [0; 0; 0; 0])) <> "/32"%string)
    by discriminate.
  exact (proj1 (choose_whole_space_never_returns (fun _ _ => true)
                  (fun i => Z.of_nat i) false
                  (mkIPRanges [] "/0" (IPv4 0 0 0 0) (mkIPNet [0; 0; 0; 0] [0; 0; 0; 0]))
                  (fun _ => eq_refl)) Hm 50%nat 0%nat).
Defined.

Lemma expand_single ParseCIDR NetContains rand_source TestAll fuel r k spec first n :
  IndexByte spec "/" < 0 ->
  ParseCIDR (spec ++ single_mask spec)%string = Some (first, n) ->
  expand ParseCIDR NetContains rand_source TestAll fuel r k spec
  = Some (mkIPRanges (ips r ++ [first]) (single_mask spec) first n, k).
Proof.
  intros H Hp. unfold expand, parseCIDR.
  rewrite (fixIP_unmasked r spec H), Hp.
  unfold chooseIPv4, chooseIPv6, single_mask. simpl mask.
  destruct (isIPv4 spec); reflexivity.
Qed.

Lemma loadIPRanges_from_single ParseCIDR NetContains rand_source TestAll fuel :
  forall specs r k,
  Forall (fun s => s <> EmptyString /\ IndexByte s "/" < 0 /\
                   ParseCIDR (s ++ single_mask s)%string <> None) specs ->
  exists r',
    loadIPRanges_from ParseCIDR NetContains rand_source TestAll fuel r k specs
    = Some (r', k) /\
    ips r' = ips r ++ map (parsed_address ParseCIDR) specs.
Proof.
  induction specs as [|s rest IH]; intros r k HF.
  - exists r. split; [reflexivity|]. simpl. now rewrite app_nil_r.
  - inversion HF as [|? ? (Hne & Hi & Hp) HF']; subst.
    cbn [loadIPRanges_from].
    destruct (String.eqb_spec s "") as [E|_]; [contradiction|].
    destruct (ParseCIDR (s ++ single_mask s)%string) as [[first n]|] eqn:P;
      [|congruence].
    rewrite (expand_single _ _ _ _ _ r k s first n Hi P).
    destruct (IH (mkIPRanges (ips r ++ [first]) (single_mask s) first n) k HF')
      as (r' & E & Hips).
    exists r'. split; [exact E|]. rewrite Hips. cbn [ips map].
    unfold parsed_address at 2. rewrite P. now rewrite <- app_assoc.
Qed.

(** X18. A list of specifications each of which is a single address
    without a mask loads as these addresses, one for each specification,
    in the order of the list. *)
Theorem loadIPRanges_single_addresses
  (ParseCIDR : string -> option (IPAddr * IPNet))
  (NetContains : IPNet -> IPAddr -> bool) (rand_source : nat -> Z)
  (TestAll : bool) (fuel : nat) (specs : list string) :
  Forall (fun s => s <> EmptyString /\ IndexByte s "/" < 0 /\
                   ParseCIDR (s ++ single_mask s)%string <> None) specs ->
  loadIPRanges ParseCIDR NetContains rand_source TestAll fuel specs
  = Some (map (parsed_address ParseCIDR) specs).
Proof.
  intros HF. unfold loadIPRanges.
  destruct (loadIPRanges_from_single ParseCIDR NetContains rand_source TestAll fuel
              specs newIPRanges O HF) as (r' & -> & Hips).
  now rewrite Hips.
Qed.

Lemma loadIPRanges_single_addresses_witness :
  loadIPRanges sample_ParseCIDR (fun _ _ => true) (fun i => Z.of_nat i) false 0
    ["2606:4700::"; "1.1.1.1"]%string
  = Some [[38; 6; 71; 0; 0; 0; 0; 0; 0; 0; 0; 0; 0; 0; 0; 0]; IPv4 1 1 1 1].
Proof.
  apply (loadIPRanges_single_addresses sample_ParseCIDR (fun _ _ => true)
           (fun i => Z.of_nat i) false 0 ["2606:4700::"; "1.1.1.1"]%string).
  repeat constructor; try discriminate.
Defined.

Lemma fixIP_fst r1 r2 spec : fst (fixIP r1 spec) = fst (fixIP r2 spec).
Proof. unfold fixIP. destruct (IndexByte spec "/" <? 0); reflexivity. Qed.

Lemma expand_unparsable ParseCIDR NetContains rand_source TestAll fuel r k spec :
  ParseCIDR (fst (fixIP newIPRanges spec)) = None ->
  expand ParseCIDR NetContains rand_source TestAll fuel r k spec = None.
Proof.
  intros H. unfold expand, parseCIDR.
  rewrite (fixIP_fst newIPRanges r spec) in H.
  destruct (fixIP r spec) as [fixed r1]. cbn [fst] in H. now rewrite H.
Qed.

Lemma loadIPRanges_from_app ParseCIDR NetContains rand_source TestAll fuel :
  forall l1 l2 r k,
  loadIPRanges_from ParseCIDR NetContains rand_source TestAll fuel r k (l1 ++ l2)
  = match loadIPRanges_from ParseCIDR NetContains rand_source TestAll fuel r k l1 with
    | None => None
    | Some (r1, k1) =>
        loadIPRanges_from ParseCIDR NetContains rand_source TestAll fuel r1 k1 l2
    end.
Proof.
  induction l1 as [|s rest IH]; intros l2 r k; [reflexivity|].
  cbn [app loadIPRanges_from].
  destruct (String.eqb s ""); [apply IH|].
  destruct (expand ParseCIDR NetContains rand_source TestAll fuel r k s)
    as [[r1 k1]|]; [apply IH|reflexivity].
Qed.

(** X19. [loadIPRanges] skips the empty specifications, and one
    specification that does not parse leaves it without a result,
    wherever it stands in the list. *)
Theorem loadIPRanges_skips_and_aborts
  (ParseCIDR : string -> option (IPAddr * IPNet))
  (NetContains : IPNet -> IPAddr -> bool) (rand_source : nat -> Z)
  (TestAll : bool) (fuel : nat) (specs : list string) :
  loadIPRanges ParseCIDR NetContains rand_source TestAll fuel
    (filter (fun s => negb (String.eqb s "")) specs)
  = loadIPRanges ParseCIDR NetContains rand_source TestAll fuel specs /\
  (forall spec, In spec specs -> spec <> EmptyString ->
     ParseCIDR (fst (fixIP newIPRanges spec)) = None ->
     loadIPRanges ParseCIDR NetContains rand_source TestAll fuel specs = None).
Proof.
  split.
  - unfold loadIPRanges. f_equal.
    generalize newIPRanges O.
    induction specs as [|s rest IH]; intros r k; [reflexivity|].
    cbn [filter loadIPRanges_from].
    destruct (String.eqb s "") eqn:E; cbn [negb]; [apply IH|].
    cbn [loadIPRanges_from]. rewrite E.
    destruct (expand ParseCIDR NetContains rand_source TestAll fuel r k s)
      as [[r1 k1]|]; [apply IH|reflexivity].
  - intros spec Hin Hne Hp. unfold loadIPRanges.
    apply in_split in Hin. destruct Hin as (l1 & l2 & ->).
    rewrite loadIPRanges_from_app.
    destruct (loadIPRanges_from ParseCIDR NetContains rand_source TestAll fuel
                newIPRanges O l1) as [[r1 k1]|]; [|reflexivity].
    cbn [loadIPRanges_from].
    destruct (String.eqb_spec spec "") as [E|_]; [contradiction|].
    now rewrite (expand_unparsable _ _ _ _ _ r1 k1 spec Hp).
Qed.

(** ** The download phase: parameters and results *)

Lemma checkDownloadDefault_eq d :
  checkDownloadDefault d
  = mkDownloadVars (if String.eqb (URL d) "" then defaultURL else URL d)
      (if Timeout d <=? 0 then defaultTimeout else Timeout d)
      (Disable d)
      (if TestCount d <=? 0 then defaultTestNum else TestCount d)
      (if fle (MinSpeed d) fzero then defaultMinSpeed else MinSpeed d).
Proof.
  destruct d as [u t dis n m]. unfold checkDownloadDefault.
  cbn [URL Timeout Disable TestCount MinSpeed].
  destruct (String.eqb u ""); cbn [URL Timeout Disable TestCount MinSpeed];
    destruct (t <=? 0); cbn [URL Timeout Disable TestCount MinSpeed];
    destruct (n <=? 0); cbn [URL Timeout Disable TestCount MinSpeed];
    destruct (fle m fzero); reflexivity.
Qed.

(** X20. After [checkDownloadDefault] the address is not empty, the
    timeout and the count are positive and the minimum speed is not below
    zero (a negative minimum and a negative zero become zero); the switch
    [Disable] is not touched; and checking twice is checking once. *)
Theorem checkDownloadDefault_normalises (d : DownloadVars) :
  let d' := checkDownloadDefault d in
  URL d' <> EmptyString /\ 0 < Timeout d' /\ 0 < TestCount d' /\
  flt (MinSpeed d') fzero = false /\
  (fle (MinSpeed d) fzero = true -> MinSpeed d' = fzero) /\
  Disable d' = Disable d /\
  checkDownloadDefault d' = d'.
Proof.
  intros d'. unfold d'. clear d'.
  rewrite !checkDownloadDefault_eq. destruct d as [u t dis n m].
  cbn [URL Timeout Disable TestCount MinSpeed].
  assert (Hu : (if String.eqb u "" then defaultURL else u) <> EmptyString).
  { destruct (String.eqb_spec u ""); [discriminate|assumption]. }
  assert (Ht : 0 < (if t <=? 0 then defaultTimeout else t)).
  { destruct (Z.leb_spec t 0); [reflexivity|assumption]. }
  assert (Hn : 0 < (if n <=? 0 then defaultTestNum else n)).
  { destruct (Z.leb_spec n 0); [reflexivity|assumption]. }
  split; [exact Hu|]. split; [exact Ht|]. split; [exact Hn|].
  split; [|split; [|split; [reflexivity|]]].
  - destruct (fle m fzero) eqn:E; [reflexivity|].
    unfold fle, SFleb in E. unfold flt, SFltb.
    destruct (SFcompare m fzero) as [[| |]|]; congruence.
  - intros ->. reflexivity.
  - f_equal.
    + destruct (String.eqb_spec (if String.eqb u "" then defaultURL else u) "");
        [contradiction|reflexivity].
    + destruct (Z.leb_spec (if t <=? 0 then defaultTimeout else t) 0);
        [lia|reflexivity].
    + destruct (Z.leb_spec (if n <=? 0 then defaultTestNum else n) 0);
        [lia|reflexivity].
    + destruct (fle m fzero) eqn:E; [reflexivity|]. now rewrite E.
Qed.

(** X21. With the download test disabled, or with no candidate,
    [TestDownloadSpeed] measures nothing: it calls [downloadHandler] for no
    candidate, writes to no record and returns the candidates it was given,
    as they are and in their order (they are not sorted). *)
Theorem TestDownloadSpeed_skips
  (downloadHandler : nat -> IPAddr -> float64 * string)
  (sort_Sort : DownloadSpeedSet -> DownloadSpeedSet)
  (v : Vars) (d0 : DownloadVars) (ipSet : PingDelaySet) :
  Disable d0 = true \/ ipSet = [] ->
  TestDownloadSpeed downloadHandler sort_Sort v d0 ipSet
  = Some (mkOutcome ipSet (checkDownloadDefault d0) ipSet []).
Proof.
  intros H. unfold TestDownloadSpeed.
  destruct (checkDownloadDefault_fields d0) as (Hd & _). rewrite Hd.
  destruct (Disable d0); [reflexivity|].
  destruct H as [H| ->]; [discriminate|reflexivity].
Qed.

Lemma TestDownloadSpeed_skips_witness :
  option_map speedSet
    (TestDownloadSpeed (fun _ _ => (f64_two_MiB, EmptyString)) sort_speed defaultVars
       (mkDownloadVars defaultURL defaultTimeout true 10 fzero) three_candidates)
  = Some three_candidates.
Proof.
  rewrite (TestDownloadSpeed_skips (fun _ _ => (f64_two_MiB, EmptyString)) sort_speed
             defaultVars (mkDownloadVars defaultURL defaultTimeout true 10 fzero)
             three_candidates (or_introl eq_refl)).
  reflexivity.
Defined.








